(** * Ephemeral viewer-token store of the HubSpot viewer backend

    A shallow embedding of the token mechanism of [backend/server.js]
    ([viewerTokens], [generateViewerToken], [validateViewerToken]) and of the
    authorization gates of the request handlers that use it, followed by the
    properties of the mechanism. The embedding then covers what stands
    around the mechanism: the origin checks ([corsOptions.origin],
    [HUBSPOT_DOMAIN_PATTERNS], [validateHubSpotRequest]), the two handlers
    that mint tokens in bulk (the CRM card and the attachment list) and
    the content type of a served file.

    Conventions of the embedding:
    - JavaScript values that reach the mechanism (request fields, map keys)
      are [JsVal]: [undefined], [null] or a string;
    - [Date.now()] is a parameter [now : Z] (milliseconds) of every operation
      that reads the clock;
    - [crypto.randomBytes(32)] is a parameter [rnd : list byte] of the
      operation that draws it;
    - the process-wide [Map] and the pending [setTimeout] callbacks form the
      [World] that every operation threads through;
    - what HubSpot answers to a handler is an input of that handler, a
      [Completion] where the call can fail; library functions the handlers
      call on strings ([new URL], [encodeURIComponent], [parseInt], [trim],
      [split]) are parameters, with a [Completion] as result where the
      function can throw;
    - [req.body] is optional: a request without a parsed body has it
      [undefined], and destructuring it throws into the handler's [catch]. *)

From stdpp Require Import gmap strings list fin_maps pretty.
From Stdlib Require Import ZArith Lia Ascii String Strings.Byte.

Local Open Scope Z_scope.
Local Open Scope string_scope.

(** ** JavaScript values *)

Inductive JsVal : Type :=
| JUndefined
| JNull
| JStr (s : string).

#[global] Instance JsVal_eq_dec : EqDecision JsVal.
Proof. solve_decision. Defined.

Definition JsVal_enc (v : JsVal) : option (option string) :=
  match v with
  | JUndefined => None
  | JNull => Some None
  | JStr s => Some (Some s)
  end.

Definition JsVal_dec (o : option (option string)) : JsVal :=
  match o with
  | None => JUndefined
  | Some None => JNull
  | Some (Some s) => JStr s
  end.

#[global] Instance JsVal_countable : Countable JsVal.
Proof.
  apply (inj_countable' JsVal_enc JsVal_dec).
  intros []; reflexivity.
Defined.

(** [ToBoolean]: [undefined], [null] and the empty string are falsy. *)
Definition truthy (v : JsVal) : bool :=
  match v with
  | JUndefined | JNull => false
  | JStr s => negb (String.eqb s "")
  end.

(** [a || b] *)
Definition js_or (a b : JsVal) : JsVal := if truthy a then a else b.

(** [a !== b]; on [undefined], [null] and strings strict equality is
    equality of the values. *)
Definition strict_ne (a b : JsVal) : bool := negb (bool_decide (a = b)).

(** ** Completions: a JavaScript evaluation returns or throws *)

Inductive Completion (A : Type) : Type :=
| Normal (a : A)
| Throw (e : string).
Arguments Normal {A} a.
Arguments Throw {A} e.

#[global] Instance Completion_ret : MRet Completion := fun A a => Normal a.

#[global] Instance Completion_bind : MBind Completion := fun A B k c =>
  match c with
  | Normal a => k a
  | Throw e => Throw e
  end.

(** ** The token record and the process state *)

Record TokenData : Type := mkTokenData {
  fileId : JsVal;
  filename : JsVal;
  expiresAt : Z;
  used : bool
}.

#[global] Instance TokenData_eq_dec : EqDecision TokenData.
Proof. solve_decision. Defined.

(** A pending [setTimeout(() => viewerTokens.delete(token), delay)]. *)
Record Timer : Type := mkTimer {
  timer_delay : Z;
  timer_token : JsVal
}.

Record World : Type := mkWorld {
  viewerTokens : gmap JsVal TokenData;
  timers : list Timer
}.

(** [const viewerTokens = new Map()] at process start, nothing scheduled. *)
Definition initial : World := mkWorld ∅ [].

(** ** [Buffer.toString('hex')] *)

(** The alphabet of the encoding: Node writes lower-case digits. *)
Definition hexAlphabet : list ascii :=
  list_ascii_of_string "0123456789abcdef".

Definition hexDigit (n : N) : ascii :=
  nth (N.to_nat n) hexAlphabet "0"%char.

Definition byteToHex (b : byte) (rest : string) : string :=
  String (hexDigit (Byte.to_N b / 16)) (String (hexDigit (Byte.to_N b mod 16)) rest).

Fixpoint toHex (buf : list byte) : string :=
  match buf with
  | [] => ""
  | b :: buf' => byteToHex b (toHex buf')
  end.

(** The inverse reading, used to show that [toHex] loses nothing: the
    position of a character in the alphabet, counted from [i]. *)
Fixpoint position (c : ascii) (alphabet : list ascii) (i : N) : option N :=
  match alphabet with
  | [] => None
  | d :: alphabet' =>
      if Ascii.eqb c d then Some i else position c alphabet' (N.succ i)
  end.

Definition hexValue (c : ascii) : option N := position c hexAlphabet 0.

Fixpoint fromHex (fuel : nat) (s : string) : option (list byte) :=
  match fuel, s with
  | _, "" => Some []
  | S fuel', String hi (String lo rest) =>
      match hexValue hi, hexValue lo, fromHex fuel' rest with
      | Some h, Some l, Some bs =>
          match Byte.of_N (16 * h + l) with
          | Some b => Some (b :: bs)
          | None => None
          end
      | _, _, _ => None
      end
  | _, _ => None
  end.

(** ** The token mechanism *)

(** [generateViewerToken(fileId, filename)] *)
Definition generateViewerToken (fileId filename : JsVal)
    (rnd : list byte) (now : Z) (w : World) : World * string :=
  let token := toHex rnd in
  let expiresAt := now + (15 * 60 * 1000) in
  let store := <[JStr token := mkTokenData fileId filename expiresAt false]>
                 (viewerTokens w) in
  let pending := (timers w ++ [mkTimer (15 * 60 * 1000) (JStr token)])%list in
  (mkWorld store pending, token).

(** The body of the scheduled callback: [viewerTokens.delete(token)]. *)
Definition timerCallback (token : JsVal) (w : World) : World :=
  mkWorld (delete token (viewerTokens w)) (timers w).

(** Reading [.expiresAt] off the result of [Map.get]: a [TypeError] on
    [undefined]. *)
Definition get_expiresAt (tokenData : option TokenData) : Completion Z :=
  match tokenData with
  | Some td => Normal (expiresAt td)
  | None => Throw "TypeError: Cannot read properties of undefined"
  end.

(** [!tokenData]: a stored record is an object, hence truthy. *)
Definition falsy_record (tokenData : option TokenData) : bool :=
  match tokenData with
  | Some _ => false
  | None => true
  end.

(** [validateViewerToken(token)]; the result [None] is [null]. *)
Definition validateViewerToken (token : JsVal) (now : Z) (w : World)
  : Completion (World * option TokenData) :=
  let tokenData := viewerTokens w !! token in
  if falsy_record tokenData then Normal (w, None)
  else
    exp ← get_expiresAt tokenData;
    if now >? exp
    then Normal (mkWorld (delete token (viewerTokens w)) (timers w), None)
    else Normal (w, tokenData).

(** Reading [.fileId] off the result of [validateViewerToken]: a
    [TypeError] on [null]. *)
Definition get_fileId (tokenData : option TokenData) : Completion JsVal :=
  match tokenData with
  | Some td => Normal (fileId td)
  | None => Throw "TypeError: Cannot read properties of null"
  end.

(** Repeated calls [validateViewerToken(token)] at the clock readings
    [nows], in order; the results are collected in call order. *)
Fixpoint validateMany (token : JsVal) (nows : list Z) (w : World)
  : Completion (World * list (option TokenData)) :=
  match nows with
  | [] => Normal (w, [])
  | now :: nows' =>
      '(w1, r) ← validateViewerToken token now w;
      '(w2, rs) ← validateMany token nows' w1;
      Normal (w2, r :: rs)
  end.

(** The event loop runs the [i]-th pending timer: it leaves the pending
    list and its callback runs. No pending timer at [i]: nothing to run. *)
Definition fireTimer (i : nat) (w : World) : option World :=
  match timers w !! i with
  | Some t =>
      Some (timerCallback (timer_token t)
              (mkWorld (viewerTokens w) (delete i (timers w))))
  | None => None
  end.

(** ** The request handlers, up to the point where they call HubSpot *)

(** What a handler does with a request: it answers at once, or it has
    passed its checks and goes on to the HubSpot API with the values it
    holds at that point. *)
Inductive Outcome : Type :=
| ReplyError (status : Z) (error : string)
| ReplyToken (token : string) (expiresIn : Z)
| FetchFile (fileId : string)
| RenderViewer (fileId : string) (filename token : JsVal)
| ReplaceFile (fileId name : JsVal)
| UploadNew (name : JsVal).

(** [const { prop, ... } = req.body]: [req.body] is an object when a body
    parser has filled it and [undefined] otherwise, and destructuring
    [undefined] throws a [TypeError] with this message. *)
Definition destructure {A : Type} (prop : string) (body : option A)
  : Completion A :=
  match body with
  | Some b => Normal b
  | None =>
      Throw ("Cannot destructure property '" ++ prop ++
             "' of 'req.body' as it is undefined.")
  end.

(** [req.body] of a mint request. *)
Record MintBody : Type := mkMintBody {
  mint_fileId : JsVal;
  mint_filename : JsVal
}.

(** The [try] block of [POST /api/generate-viewer-token]. *)
Definition generate_try (body : option MintBody)
    (rnd : list byte) (now : Z) (w : World) : Completion (World * Outcome) :=
  b ← destructure "fileId" body;
  if negb (truthy (mint_fileId b))
  then Normal (w, ReplyError 400 "Missing fileId")
  else
    let '(w', token) :=
      generateViewerToken (mint_fileId b)
        (js_or (mint_filename b) (JStr "document")) rnd now w in
    Normal (w', ReplyToken token 900).

(** [POST /api/generate-viewer-token], after [validateHubSpotRequest] has
    called [next()]; the [catch] answers 500 with the message of what was
    thrown. *)
Definition post_generate_viewer_token (body : option MintBody)
    (rnd : list byte) (now : Z) (w : World) : World * Outcome :=
  match generate_try body rnd now w with
  | Normal r => r
  | Throw message => (w, ReplyError 500 message)
  end.

(** [!tokenData || tokenData.fileId !== fileId] *)
Definition token_rejected (tokenData : option TokenData) (fileId : string)
  : Completion bool :=
  if falsy_record tokenData then Normal true
  else f ← get_fileId tokenData; Normal (strict_ne f (JStr fileId)).

(** [GET /api/file/:fileId] with [req.params.fileId] and [req.query.token]. *)
Definition get_api_file (params_fileId : string) (query_token : JsVal)
    (now : Z) (w : World) : Completion (World * Outcome) :=
  if negb (truthy query_token)
  then Normal (w, ReplyError 401 "Missing authentication token")
  else
    '(w', tokenData) ← validateViewerToken query_token now w;
    rejected ← token_rejected tokenData params_fileId;
    if (rejected : bool) then Normal (w', ReplyError 401 "Invalid or expired token")
    else Normal (w', FetchFile params_fileId).

(** [GET /viewer/:fileId] with [req.params.fileId], [req.query.filename]
    and [req.query.token]. *)
Definition get_viewer (params_fileId : string)
    (query_filename query_token : JsVal)
    (now : Z) (w : World) : Completion (World * Outcome) :=
  let filename := js_or query_filename (JStr "document") in
  if negb (truthy query_token)
  then Normal (w, ReplyError 401 "Missing authentication token. Please access this page from HubSpot.")
  else
    '(w', tokenData) ← validateViewerToken query_token now w;
    rejected ← token_rejected tokenData params_fileId;
    if (rejected : bool)
    then Normal (w', ReplyError 401 "Invalid or expired token. Tokens are valid for 15 minutes.")
    else Normal (w', RenderViewer params_fileId filename query_token).

(** [req.file] as multer leaves it. *)
Record UploadedFile : Type := mkUploadedFile {
  buffer : option (list byte);
  originalname : JsVal;
  mimetype : JsVal
}.

(** [req.body] of an upload. *)
Record UploadBody : Type := mkUploadBody {
  up_filename : JsVal;
  up_fileId : JsVal
}.

Record UploadRequest : Type := mkUploadRequest {
  upload_token : JsVal;               (* req.query.token *)
  upload_file : option UploadedFile;  (* req.file *)
  upload_body : option UploadBody     (* req.body *)
}.

(** The [try] block of [POST /api/hubspot/upload]. *)
Definition upload_try (req : UploadRequest) (now : Z) (w : World)
  : Completion (World * Outcome) :=
  let token := upload_token req in
  if negb (truthy token)
  then Normal (w, ReplyError 401 "Missing authentication token")
  else
    '(w', tokenData) ← validateViewerToken token now w;
    if falsy_record tokenData
    then Normal (w', ReplyError 401 "Invalid or expired token")
    else
      body ← destructure "filename" (upload_body req);
      match upload_file req with
      | None => Normal (w', ReplyError 400 "No file provided")
      | Some file =>
          match buffer file with
          | None => Normal (w', ReplyError 400 "File buffer is empty")
          | Some _ =>
              let name := js_or (up_filename body) (originalname file) in
              if truthy (up_fileId body)
              then Normal (w', ReplaceFile (up_fileId body) name)
              else Normal (w', UploadNew name)
          end
      end.

(** [POST /api/hubspot/upload]: the [catch] turns a throw into a 500.
    The one throwing step of [upload_try] comes after a token check that
    left the state as it was, so the state at the [catch] is [w]. *)
Definition post_hubspot_upload (req : UploadRequest) (now : Z) (w : World)
  : World * Outcome :=
  match upload_try req now w with
  | Normal r => r
  | Throw e => (w, ReplyError 500 e)
  end.

(** ** Runs of the process *)

(** One atomic turn of the single-threaded event loop that touches the
    token store. *)
Inductive step : World -> World -> Prop :=
| step_mint fileId filename rnd now w :
    List.length rnd = 32%nat ->
    step w (generateViewerToken fileId filename rnd now w).1
| step_validate token now w w' r :
    validateViewerToken token now w = Normal (w', r) ->
    step w w'
| step_timer i w w' :
    fireTimer i w = Some w' ->
    step w w'.

Definition reachable (w : World) : Prop := rtc step initial w.

(** A key as [generateViewerToken] makes them. *)
Definition minted_key (k : JsVal) : Prop :=
  exists rnd, List.length rnd = 32%nat /\ k = JStr (toHex rnd).

(** What holds of every record of the store in every run. *)
Definition store_ok (w : World) : Prop :=
  forall k td, viewerTokens w !! k = Some td ->
    minted_key k /\ used td = false.

(** The same record with the [used] flag set to [b]. *)
Definition with_used (b : bool) (td : TokenData) : TokenData :=
  mkTokenData (fileId td) (filename td) (expiresAt td) b.

(** ** Worked data for the examples below *)

Definition example_rnd : list byte := List.repeat x00 32.
Definition other_rnd : list byte := List.repeat xff 32.

(** [generateViewerToken("42", "a.pdf")] at clock reading 0 in a fresh
    process. *)
Definition example_world : World :=
  (generateViewerToken (JStr "42") (JStr "a.pdf") example_rnd 0 initial).1.

Definition example_token : JsVal := JStr (toHex example_rnd).

Definition example_record : TokenData :=
  mkTokenData (JStr "42") (JStr "a.pdf") 900000 false.

(** An upload that presents the token minted for file 42 and names file
    99 in its body. *)
Definition example_upload : UploadRequest :=
  mkUploadRequest example_token
    (Some (mkUploadedFile (Some [x25; x50; x44; x46])
             (JStr "edited.pdf") (JStr "application/pdf")))
    (Some (mkUploadBody JUndefined (JStr "99"))).

(** ** Strings as the request checks read them *)

(** The code units of a string; header values are ASCII. *)
Definition chars (s : string) : list ascii := list_ascii_of_string s.

(** [String.prototype.toLowerCase] on one ASCII code unit. *)
Definition toLowerAscii (c : ascii) : ascii :=
  let n := N_of_ascii c in
  if ((65 <=? n) && (n <=? 90))%N then ascii_of_N (n + 32) else c.

(** Equality up to the case of ASCII letters. *)
Definition eq_ci (a b : list ascii) : Prop :=
  map toLowerAscii a = map toLowerAscii b.

Fixpoint starts_with (sub s : list ascii) : bool :=
  match sub, s with
  | [], _ => true
  | c :: sub', d :: s' => Ascii.eqb c d && starts_with sub' s'
  | _ :: _, [] => false
  end.

Fixpoint includes_from (s sub : list ascii) : bool :=
  starts_with sub s ||
  match s with
  | [] => false
  | _ :: s' => includes_from s' sub
  end.

(** [s.includes(sub)] *)
Definition includes (s sub : string) : bool :=
  includes_from (chars s) (chars sub).

(** ** The regular expressions of the origin check *)

(** The fragment of the pattern language the file uses: no match, the
    empty match, one code unit out of a set, sequence, alternative and
    repetition. *)
Inductive Regex : Type :=
| RNone
| REmpty
| RChar (accept : ascii -> bool)
| RSeq (r1 r2 : Regex)
| RAlt (r1 r2 : Regex)
| RStar (r : Regex).

Definition ROpt (r : Regex) : Regex := RAlt REmpty r.
Definition RPlus (r : Regex) : Regex := RSeq r (RStar r).

(** Can the expression match the empty input? *)
Fixpoint nullable (r : Regex) : bool :=
  match r with
  | RNone => false
  | REmpty => true
  | RChar _ => false
  | RSeq r1 r2 => nullable r1 && nullable r2
  | RAlt r1 r2 => nullable r1 || nullable r2
  | RStar _ => true
  end.

(** What is left to match once [c] has been read. *)
Fixpoint after (c : ascii) (r : Regex) : Regex :=
  match r with
  | RNone => RNone
  | REmpty => RNone
  | RChar accept => if accept c then REmpty else RNone
  | RSeq r1 r2 =>
      if nullable r1
      then RAlt (RSeq (after c r1) r2) (after c r2)
      else RSeq (after c r1) r2
  | RAlt r1 r2 => RAlt (after c r1) (after c r2)
  | RStar r1 => RSeq (after c r1) (RStar r1)
  end.

(** Does the whole input match? *)
Fixpoint matches (r : Regex) (s : list ascii) : bool :=
  match s with
  | [] => nullable r
  | c :: s' => matches (after c r) s'
  end.

(** The inputs an expression matches, as a relation. *)
Inductive Lang : Regex -> list ascii -> Prop :=
| Lang_empty : Lang REmpty []
| Lang_char accept c : accept c = true -> Lang (RChar accept) [c]
| Lang_seq r1 r2 s1 s2 :
    Lang r1 s1 -> Lang r2 s2 -> Lang (RSeq r1 r2) (s1 ++ s2)
| Lang_alt_l r1 r2 s : Lang r1 s -> Lang (RAlt r1 r2) s
| Lang_alt_r r1 r2 s : Lang r2 s -> Lang (RAlt r1 r2) s
| Lang_star_stop r : Lang (RStar r) []
| Lang_star_more r s1 s2 :
    Lang r s1 -> Lang (RStar r) s2 -> Lang (RStar r) (s1 ++ s2).

(** [/^r$/.test(s)]: anchored at both ends, the whole of [s] matches. *)
Definition test (r : Regex) (s : string) : bool := matches r (chars s).

Definition anyChar : Regex := RChar (fun _ => true).

(** [/r/.test(s)]: not anchored, some stretch of [s] matches. *)
Definition search (r : Regex) (s : string) : bool :=
  matches (RSeq (RStar anyChar) (RSeq r (RStar anyChar))) (chars s).

(** One code unit under the [i] flag. *)
Definition ci (c : ascii) : Regex :=
  RChar (fun x => Ascii.eqb (toLowerAscii x) (toLowerAscii c)).

(** A literal under the [i] flag. *)
Definition lit_ci (s : string) : Regex :=
  fold_right (fun c r => RSeq (ci c) r) REmpty (chars s).

(** [[a-z0-9-]] under the [i] flag. *)
Definition labelChar (c : ascii) : bool :=
  let n := N_of_ascii (toLowerAscii c) in
  (((97 <=? n) && (n <=? 122)) || ((48 <=? n) && (n <=? 57)) || (n =? 45))%N.

(** [/^https?:\/\/([a-z0-9-]+\.)*DOMAIN$/i], where [DOMAIN] is a literal
    with its dots escaped. *)
Definition domainPattern (domain : string) : Regex :=
  RSeq (lit_ci "http")
    (RSeq (ROpt (ci "s"))
       (RSeq (lit_ci "://")
          (RSeq (RStar (RSeq (RPlus (RChar labelChar)) (ci ".")))
             (lit_ci domain)))).

Definition HUBSPOT_DOMAINS : list string :=
  ["hubspot.com"; "hubspotusercontent.com"; "hs-sites.com";
   "hubspotpreview.com"].

Definition HUBSPOT_DOMAIN_PATTERNS : list Regex :=
  map domainPattern HUBSPOT_DOMAINS.

(** What the pattern of [domain] accepts, spelled out: a scheme, [://],
    any number of dot-terminated labels, the domain. *)
Definition origin_shape (domain : string) (o : list ascii) : Prop :=
  exists scheme labels dom,
    o = (scheme ++ chars "://" ++
         List.concat (map (fun l => l ++ chars ".") labels) ++ dom)%list /\
    (eq_ci scheme (chars "http") \/ eq_ci scheme (chars "https")) /\
    Forall (fun l => l <> [] /\ Forall (fun c => labelChar c = true) l)
      labels /\
    eq_ci dom (chars domain).

(** ** [validateHubSpotRequest] *)

(** The three headers the middleware reads. *)
Record Headers : Type := mkHeaders {
  h_origin : JsVal;
  h_referer : JsVal;
  h_user_agent : JsVal
}.

(** [next()] or the answer that ends the request. *)
Inductive Verdict : Type :=
| Next
| Reject (status : Z) (error : string).

(** [v || ''] for a header value. *)
Definition or_empty (v : JsVal) : string :=
  match js_or v (JStr "") with
  | JStr s => s
  | _ => ""
  end.

Definition nonempty (s : string) : bool := negb (String.eqb s "").

(** [validateHubSpotRequest(req, res, next)]. [parseURL] is [new URL(_)]:
    [None] when the constructor throws, else the [protocol] and [host] of
    the parsed URL. *)
Definition validateHubSpotRequest
    (parseURL : string -> option (string * string)) (h : Headers) : Verdict :=
  let origin := or_empty (h_origin h) in
  let referer := or_empty (h_referer h) in
  let userAgent := or_empty (h_user_agent h) in
  let refererDomain :=
    if nonempty referer then
      match parseURL referer with
      | Some (protocol, host) => protocol ++ "//" ++ host
      | None => ""
      end
    else "" in
  let isFromHubSpot :=
    existsb (fun pattern => test pattern origin) HUBSPOT_DOMAIN_PATTERNS ||
    existsb (fun pattern => test pattern refererDomain)
      HUBSPOT_DOMAIN_PATTERNS ||
    (nonempty userAgent && search (lit_ci "hubspot") userAgent) in
  if isFromHubSpot then Next
  else if negb (nonempty origin) && negb (nonempty referer) then Next
  else Reject 401 "Unauthorized".

(** ** The origin callback of the CORS options *)

(** [corsOptions.origin(origin, callback)]: [true] is
    [callback(null, true)], [false] is [callback(new Error(...))]. *)
Definition corsOrigin (origin : JsVal) : bool :=
  if negb (truthy origin) then true
  else
    let o := or_empty origin in
    if includes o "hubspot.com" || includes o "hubspotusercontent" ||
       includes o "hs-sites.com" || includes o "hubspotpreview"
    then true
    else if includes o "azurewebsites.net" ||
            includes o "nutrient-hubspot-backend"
    then true
    else if includes o "localhost" || includes o "127.0.0.1"
    then true
    else false.

(** A label of a host name as the pattern reads it. *)
Definition label_ok (l : list ascii) : Prop :=
  l <> [] /\ Forall (fun c => labelChar c = true) l.

(** ** Routes: a middleware in front of a handler *)

(** [app.post('/api/generate-viewer-token', validateHubSpotRequest,
    handler)]: the handler runs when the middleware calls [next()]. *)
Definition route_generate_viewer_token
    (parseURL : string -> option (string * string)) (h : Headers)
    (body : option MintBody)
    (rnd : list byte) (now : Z) (w : World) : World * Outcome :=
  match validateHubSpotRequest parseURL h with
  | Next => post_generate_viewer_token body rnd now w
  | Reject status error => (w, ReplyError status error)
  end.

(** ** [POST /api/crm-card] *)

(** [String(v)], as a template literal converts a value. *)
Definition to_string (v : JsVal) : string :=
  match v with
  | JUndefined => "undefined"
  | JNull => "null"
  | JStr s => s
  end.

(** The fields of a HubSpot file object that the handlers read. *)
Record HubSpotFile : Type := mkHubSpotFile {
  file_id : JsVal;
  file_name : JsVal;
  file_extension : JsVal
}.

Record CardProperty : Type := mkCardProperty {
  prop_label : JsVal;
  prop_dataType : string;
  prop_value : JsVal
}.

Record CardAction : Type := mkCardAction {
  action_type : string;
  action_width : Z;
  action_height : Z;
  action_uri : string;
  action_label : string
}.

(** One element of [results]; [card_actions] is [None] where the object
    has no [actions] field, and [card_objectId] is [None] for [NaN]. *)
Record Card : Type := mkCard {
  card_objectId : option Z;
  card_title : string;
  card_properties : list CardProperty;
  card_actions : option (list CardAction)
}.

(** [f.name && (f.extension === 'pdf' || f.extension === 'PDF')] *)
Definition is_named_pdf (f : HubSpotFile) : bool :=
  truthy (file_name f) &&
  (bool_decide (file_extension f = JStr "pdf") ||
   bool_decide (file_extension f = JStr "PDF")).

(** [allFiles.filter(...).slice(0, 10)] *)
Definition contactFiles (allFiles : list HubSpotFile) : list HubSpotFile :=
  take 10 (filter (fun f => is_named_pdf f = true) allFiles).

(** The arrow function of [properties: contactFiles.map(...)]. *)
Definition fileProperty (file : HubSpotFile) : CardProperty :=
  mkCardProperty (file_name file) "STRING" (file_name file).

(** The link of a card action; [encoded] is what [encodeURIComponent]
    made of the file name. *)
Definition cardUri (file : HubSpotFile) (encoded token : string) : string :=
  "https://nutrient-hubspot-backend.azurewebsites.net/viewer/" ++
  to_string (file_id file) ++ "?filename=" ++ encoded ++
  "&token=" ++ token.

(** [contactFiles.map(file => { const viewerToken =
    generateViewerToken(file.id, file.name); return {...} })]: the [i]-th
    call to [generateViewerToken] in this request draws [draw i] and
    reads the clock as [clock i]. [encodeURIComponent] throws a
    [URIError] on some strings; it is called once the token of the file
    has been minted, so a throw leaves the state with the mints made so
    far and ends the [map]. *)
Fixpoint mintActions (encodeURIComponent : string -> Completion string)
    (files : list HubSpotFile) (i : nat)
    (draw : nat -> list byte) (clock : nat -> Z) (w : World)
  : World * Completion (list CardAction) :=
  match files with
  | [] => (w, Normal [])
  | file :: files' =>
      let '(w1, viewerToken) :=
        generateViewerToken (file_id file) (file_name file)
          (draw i) (clock i) w in
      match encodeURIComponent (to_string (file_name file)) with
      | Throw message => (w1, Throw message)
      | Normal encoded =>
          let action :=
            mkCardAction "IFRAME" 1200 800
              (cardUri file encoded viewerToken)
              ("View " ++ to_string (file_name file)) in
          let '(w2, rest) :=
            mintActions encodeURIComponent files' (S i) draw clock w1 in
          (w2, actions ← rest; Normal (action :: actions))
      end
  end.

(** [req.body] of a card request. *)
Record CardBody : Type := mkCardBody {
  card_hs_object_id : JsVal;
  card_body_objectId : JsVal
}.

(** The card of the [catch]: [error.message] in its one property. *)
Definition errorCard (message : string) : Card :=
  mkCard (Some 0) "Error Loading Documents"
    [mkCardProperty (JStr "Error") "STRING" (JStr message)] None.

(** [POST /api/crm-card]. [search] is the outcome of the file search:
    [Throw] when the call fails, else [response.data.results] ([None]
    when it is missing). [parseInt] gives [None] for [NaN]. Whatever is
    thrown inside the [try] (by the destructuring of a missing body, by
    the search, by [encodeURIComponent] while the actions are built) ends
    in the [catch], which answers with [errorCard] and undoes nothing. *)
Definition post_crm_card
    (parseInt : JsVal -> option Z)
    (encodeURIComponent : string -> Completion string)
    (body : option CardBody)
    (search : Completion (option (list HubSpotFile)))
    (draw : nat -> list byte) (clock : nat -> Z) (w : World)
  : World * Card :=
  match destructure "hs_object_id" body with
  | Throw message => (w, errorCard message)
  | Normal b =>
      let contactId := js_or (card_hs_object_id b) (card_body_objectId b) in
      if negb (truthy contactId)
      then (w, mkCard (Some 0) "No Contact ID" [] None)
      else
        match search with
        | Throw message => (w, errorCard message)
        | Normal results =>
            let allFiles := default [] results in
            let files := contactFiles allFiles in
            let n := List.length files in
            let title :=
              pretty n ++ " Document" ++
              (if bool_decide (n = 1%nat) then "" else "s") in
            let properties :=
              if bool_decide (0 < n)%nat then map fileProperty files
              else [mkCardProperty (JStr "No documents") "STRING"
                      (JStr "No PDF files found")] in
            match mintActions encodeURIComponent files 0 draw clock w with
            | (w', Normal actions) =>
                (w', mkCard (parseInt contactId) title properties
                       (Some actions))
            | (w', Throw message) => (w', errorCard message)
            end
        end
  end.

(** ** Serving the file content *)

(** The literal [mimeTypes] of the file handler. *)
Definition mimeTypes : list (string * string) :=
  [("pdf", "application/pdf"); ("png", "image/png");
   ("jpg", "image/jpeg"); ("jpeg", "image/jpeg"); ("gif", "image/gif");
   ("txt", "text/plain"); ("doc", "application/msword");
   ("docx", "application/vnd.openxmlformats-officedocument.wordprocessingml.document");
   ("xls", "application/vnd.ms-excel");
   ("xlsx", "application/vnd.openxmlformats-officedocument.spreadsheetml.sheet")].

(** The property names every object literal inherits from
    [Object.prototype]. *)
Definition objectPrototypeKeys : list string :=
  ["constructor"; "__defineGetter__"; "__defineSetter__"; "hasOwnProperty";
   "__lookupGetter__"; "__lookupSetter__"; "isPrototypeOf";
   "propertyIsEnumerable"; "toString"; "valueOf"; "__proto__";
   "toLocaleString"].

Fixpoint assoc (key : string) (table : list (string * string))
  : option string :=
  match table with
  | [] => None
  | (k, v) :: table' => if String.eqb key k then Some v else assoc key table'
  end.

(** What [Content-Type] is set to: a string, or the inherited property
    (a function or an object, not a MIME type) of that name. *)
Inductive ContentType : Type :=
| MimeString (s : string)
| InheritedProperty (name : string).

(** [s.toLowerCase()]; the letters outside ASCII never fold onto a key
    of [mimeTypes] or of [Object.prototype], and stay as they are here. *)
Definition toLowerCase (s : string) : string :=
  string_of_list_ascii (map toLowerAscii (chars s)).

(** [fileData.extension?.toLowerCase() || 'bin'] *)
Definition extensionOf (file_extension : JsVal) : string :=
  match file_extension with
  | JStr e => if nonempty (toLowerCase e) then toLowerCase e else "bin"
  | _ => "bin"
  end.

(** [mimeTypes[extension] || 'application/octet-stream'] *)
Definition mimeTypeOf (extension : string) : ContentType :=
  match assoc extension mimeTypes with
  | Some mime => MimeString mime
  | None =>
      if bool_decide (extension ∈ objectPrototypeKeys)
      then InheritedProperty extension
      else MimeString "application/octet-stream"
  end.


(** Every record has a timer that will delete it. *)
Definition cleanup_pending (w : World) : Prop :=
  forall k td, viewerTokens w !! k = Some td ->
    exists t, t ∈ timers w /\ timer_token t = k /\
              timer_delay t = 15 * 60 * 1000.

(** ** [GET /api/contact-files/:contactId] *)

(** An element of [files] in the answer; [url] and [size] are copied
    from the file object as they come and are left out here. *)
Record ListedFile : Type := mkListedFile {
  listed_id : JsVal;
  listed_name : JsVal;
  listed_extension : JsVal;
  listed_viewerToken : string
}.

(** What the loops of the handler carry along: the token store, the
    number of calls made to [generateViewerToken] so far in this request,
    and [allFiles]. *)
Record Listing : Type := mkListing {
  ls_world : World;
  ls_minted : nat;
  ls_files : list ListedFile
}.

(** The body of [for (const fileId of fileIds)]: [fetched] is the outcome
    of the request for the file object, a [Throw] lands in the empty
    [catch (fileError)]. *)
Definition listFile (fetched : Completion HubSpotFile)
    (draw : nat -> list byte) (clock : nat -> Z) (st : Listing) : Listing :=
  match fetched with
  | Normal fileData =>
      let '(w1, viewerToken) :=
        generateViewerToken (file_id fileData) (file_name fileData)
          (draw (ls_minted st)) (clock (ls_minted st)) (ls_world st) in
      mkListing w1 (S (ls_minted st))
        (ls_files st ++
         [mkListedFile (file_id fileData) (file_name fileData)
            (js_or (file_extension fileData) (JStr "unknown"))
            viewerToken])%list
  | Throw _ => st
  end.

(** [for (const fileId of fileIds) {...}]; [fetchFile k id] is the
    outcome of the [k]-th request of the note, made for [id]. *)
Fixpoint listFiles (trim : string -> string)
    (fetchFile : nat -> string -> Completion HubSpotFile)
    (fileIds : list string) (k : nat)
    (draw : nat -> list byte) (clock : nat -> Z) (st : Listing) : Listing :=
  match fileIds with
  | [] => st
  | fileId :: fileIds' =>
      listFiles trim fetchFile fileIds' (S k) draw clock
        (listFile (fetchFile k (trim fileId)) draw clock st)
  end.

(** The body of [for (const note of results)]: [details] is the outcome
    of the request for the note, reduced to
    [data.properties?.hs_attachment_ids]; a [Throw] lands in the empty
    [catch (noteError)]. [split] is [s.split(';')] and [trim] is
    [s.trim()]. *)
Definition listNote (trim : string -> string) (split : string -> list string)
    (details : Completion JsVal)
    (fetchFile : nat -> string -> Completion HubSpotFile)
    (draw : nat -> list byte) (clock : nat -> Z) (st : Listing) : Listing :=
  match details with
  | Normal attachmentIds =>
      if truthy attachmentIds then
        let fileIds :=
          filter (fun id => nonempty (trim id) = true)
            (split (to_string attachmentIds)) in
        listFiles trim fetchFile fileIds 0 draw clock st
      else st
  | Throw _ => st
  end.

(** [for (const note of notesResponse.data.results) {...}]; the [n]-th
    note has [toObjectId] [note], [noteDetails n note] is the outcome of
    the request for it and [fetchFile n] those of its file requests. *)
Fixpoint listNotes (trim : string -> string) (split : string -> list string)
    (noteDetails : nat -> JsVal -> Completion JsVal)
    (fetchFile : nat -> nat -> string -> Completion HubSpotFile)
    (notes : list JsVal) (n : nat)
    (draw : nat -> list byte) (clock : nat -> Z) (st : Listing) : Listing :=
  match notes with
  | [] => st
  | note :: notes' =>
      listNotes trim split noteDetails fetchFile notes' (S n) draw clock
        (listNote trim split (noteDetails n note) (fetchFile n) draw clock st)
  end.

Inductive FilesReply : Type :=
| FilesNone
| FilesListed (contactId : string) (fileCount : nat)
              (files : list ListedFile)
| FilesError (status : Z) (error : string).

(** [GET /api/contact-files/:contactId], after [validateHubSpotRequest]
    has called [next()]. [notes] is the outcome of the associations
    request: [Throw] when it fails, else [data.results] ([None] when it
    is missing) as the list of the [toObjectId]s. [FilesNone] is
    [res.json({ files: [] })]. *)
Definition get_contact_files
    (trim : string -> string) (split : string -> list string)
    (contactId : string)
    (notes : Completion (option (list JsVal)))
    (noteDetails : nat -> JsVal -> Completion JsVal)
    (fetchFile : nat -> nat -> string -> Completion HubSpotFile)
    (draw : nat -> list byte) (clock : nat -> Z) (w : World)
  : World * FilesReply :=
  match notes with
  | Throw message => (w, FilesError 500 message)
  | Normal None => (w, FilesNone)
  | Normal (Some results) =>
      if bool_decide (List.length results = 0%nat) then (w, FilesNone)
      else
        let st :=
          listNotes trim split noteDetails fetchFile results 0 draw clock
            (mkListing w 0 []) in
        (ls_world st,
         FilesListed contactId (List.length (ls_files st)) (ls_files st))
  end.

(** What the loops of the attachment list keep true, for a request that
    started in state [w0]: one mint and one timer per listed file. *)
Definition listing_counts (w0 : World) (st : Listing) : Prop :=
  ls_minted st = List.length (ls_files st) /\
  List.length (timers (ls_world st))
  = (List.length (timers w0) + List.length (ls_files st))%nat.

(** And, when the draws differ: the [j]-th listed file carries the token
    of the [j]-th draw, whose record is bound to the listed id and
    name. *)
Definition listing_ok (draw : nat -> list byte) (clock : nat -> Z)
    (w0 : World) (st : Listing) : Prop :=
  listing_counts w0 st /\
  forall j lf, ls_files st !! j = Some lf ->
    listed_viewerToken lf = toHex (draw j) /\
    viewerTokens (ls_world st) !! JStr (toHex (draw j))
    = Some (mkTokenData (listed_id lf) (listed_name lf)
              (clock j + 900000) false).

(** ** Worked data for the request checks, the card and the list *)

(** A [new URL(_)] that always throws. *)
Definition no_url (_ : string) : option (string * string) := None.

Definition lookalike_request : Headers :=
  mkHeaders (JStr "https://evilhubspot.com") JUndefined (JStr "Mozilla/5.0").

Definition spoofed_agent_request : Headers :=
  mkHeaders (JStr "https://evil.example") JUndefined
    (JStr "HubSpot Connect 2.0").

Definition bare_request : Headers :=
  mkHeaders JUndefined JUndefined (JStr "curl/8.0").

(** The [j]-th draw is 32 times the byte [j]; the clock ticks once a
    call. *)
Definition example_draw (j : nat) : list byte :=
  List.repeat (default x00 (Byte.of_nat j)) 32.

Definition example_clock (j : nat) : Z := Z.of_nat j.

Definition example_files : list HubSpotFile :=
  [mkHubSpotFile (JStr "42") (JStr "a.pdf") (JStr "pdf");
   mkHubSpotFile (JStr "43") JUndefined (JStr "pdf");
   mkHubSpotFile (JStr "44") (JStr "b.PDF") (JStr "PDF");
   mkHubSpotFile (JStr "45") (JStr "c.png") (JStr "png")].

(** Stand-ins for [encodeURIComponent], [parseInt], [trim] and
    [split(';')] on the inputs of the examples. *)
Definition plain_encode (s : string) : Completion string := Normal s.
Definition no_int (_ : JsVal) : option Z := None.
Definition plain_trim (s : string) : string := s.
Definition one_part (s : string) : list string := [s].

(** A contact with one note that names file 42. *)
Definition example_note_details (_ : nat) (_ : JsVal) : Completion JsVal :=
  Normal (JStr "42").

Definition example_fetch (_ _ : nat) (id : string)
  : Completion HubSpotFile :=
  Normal (mkHubSpotFile (JStr id) (JStr "a.pdf") (JStr "pdf")).

Definition failing_fetch (_ _ : nat) (_ : string)
  : Completion HubSpotFile :=
  Throw "Request failed with status code 404".

(** The card for contact 7 over [example_files], and the attachment
    list of a contact with one note, in a fresh process. *)
Definition example_card : World * Card :=
  post_crm_card no_int plain_encode (Some (mkCardBody (JStr "7") JUndefined))
    (Normal (Some example_files)) example_draw example_clock initial.



Definition example_listing : World * FilesReply :=
  get_contact_files plain_trim one_part "7" (Normal (Some [JStr "501"]))
    example_note_details example_fetch example_draw example_clock initial.

(** * Properties *)

(** ** Hexadecimal tokens *)

Lemma byteToHex_decodes (b : byte) :
  hexValue (hexDigit (Byte.to_N b / 16)) = Some (Byte.to_N b / 16)%N /\
  hexValue (hexDigit (Byte.to_N b mod 16)) = Some (Byte.to_N b mod 16)%N /\
  Byte.of_N (16 * (Byte.to_N b / 16) + Byte.to_N b mod 16) = Some b.
Proof. destruct b; repeat split; reflexivity. Qed.

Lemma fromHex_toHex (buf : list byte) :
  fromHex (List.length buf) (toHex buf) = Some buf.
Proof.
  induction buf as [|b buf IH]; [reflexivity|].
  destruct (byteToHex_decodes b) as (Hhi & Hlo & Hb).
  cbn [List.length toHex byteToHex fromHex].
  rewrite Hhi, Hlo, IH, Hb. reflexivity.
Qed.

Lemma toHex_length (buf : list byte) :
  String.length (toHex buf) = (2 * List.length buf)%nat.
Proof.
  induction buf as [|b buf IH]; [reflexivity|].
  cbn [toHex byteToHex String.length List.length]. lia.
Qed.

Lemma toHex_inj (buf1 buf2 : list byte) :
  toHex buf1 = toHex buf2 -> buf1 = buf2.
Proof.
  intros Heq.
  assert (Hlen : List.length buf1 = List.length buf2).
  { pose proof (toHex_length buf1) as H1.
    pose proof (toHex_length buf2) as H2.
    rewrite Heq in H1. lia. }
  pose proof (fromHex_toHex buf1) as H1.
  pose proof (fromHex_toHex buf2) as H2.
  rewrite Heq, Hlen in H1. congruence.
Qed.

Lemma toHex_truthy (buf : list byte) :
  List.length buf = 32%nat -> truthy (JStr (toHex buf)) = true.
Proof.
  destruct buf as [|b buf]; [discriminate|reflexivity].
Qed.

Lemma minted_key_truthy (k : JsVal) : minted_key k -> truthy k = true.
Proof. intros (rnd & Hlen & ->). by apply toHex_truthy. Qed.

(** ** The three ways through [validateViewerToken] *)

Lemma validate_absent token now w :
  viewerTokens w !! token = None ->
  validateViewerToken token now w = Normal (w, None).
Proof. intros H. unfold validateViewerToken. by rewrite H. Qed.

Lemma validate_live token now w td :
  viewerTokens w !! token = Some td ->
  now <= expiresAt td ->
  validateViewerToken token now w = Normal (w, Some td).
Proof.
  intros H Hle. unfold validateViewerToken. rewrite H. cbn.
  destruct (Z.gtb_spec now (expiresAt td)); [lia|done].
Qed.

Lemma validate_late token now w td :
  viewerTokens w !! token = Some td ->
  expiresAt td < now ->
  validateViewerToken token now w =
    Normal (mkWorld (delete token (viewerTokens w)) (timers w), None).
Proof.
  intros H Hlt. unfold validateViewerToken. rewrite H. cbn.
  destruct (Z.gtb_spec now (expiresAt td)); [done|lia].
Qed.

(** Whatever the path, the store afterwards is the store before, or the
    store before without [token]. *)
Lemma validate_store token now w w' r :
  validateViewerToken token now w = Normal (w', r) ->
  timers w' = timers w /\
  (viewerTokens w' = viewerTokens w \/
   viewerTokens w' = delete token (viewerTokens w)).
Proof.
  unfold validateViewerToken.
  destruct (viewerTokens w !! token) as [td|]; cbn.
  - destruct (now >? expiresAt td); intros [= <- <-]; cbn; auto.
  - intros [= <- <-]. auto.
Qed.

Lemma generate_lookup fid name rnd now w :
  viewerTokens (generateViewerToken fid name rnd now w).1
    !! JStr (toHex rnd)
  = Some (mkTokenData fid name (now + 900000) false).
Proof. cbn. by rewrite lookup_insert_eq. Qed.

Lemma generate_lookup_other fid name rnd now w k :
  k <> JStr (toHex rnd) ->
  viewerTokens (generateViewerToken fid name rnd now w).1 !! k
  = viewerTokens w !! k.
Proof. intros Hne. cbn. by rewrite lookup_insert_ne. Qed.

(** ** What every run preserves *)

Lemma store_ok_initial : store_ok initial.
Proof. intros k td H. cbn in H. by rewrite lookup_empty in H. Qed.

Lemma store_ok_delete k w :
  store_ok w ->
  store_ok (mkWorld (delete k (viewerTokens w)) (timers w)).
Proof.
  intros Hok k' td H. cbn in H.
  apply lookup_delete_Some in H as [_ H]. by apply Hok.
Qed.

Lemma store_ok_step w w' : step w w' -> store_ok w -> store_ok w'.
Proof.
  intros Hstep Hok. destruct Hstep as [fid name rnd now w Hlen|token now w w' r Hv|i w w' Hf].
  - intros k td H. cbn in H.
    destruct (decide (JStr (toHex rnd) = k)) as [<-|Hne].
    + rewrite lookup_insert_eq in H. injection H as <-.
      split; [by exists rnd|done].
    + rewrite lookup_insert_ne in H by done. by apply Hok.
  - intros k td H.
    destruct (validate_store _ _ _ _ _ Hv) as [_ [Heq|Heq]];
      rewrite Heq in H; [by apply Hok|].
    apply lookup_delete_Some in H as [_ H]. by apply Hok.
  - unfold fireTimer in Hf. destruct (timers w !! i) as [t|]; [|done].
    injection Hf as <-. intros k td H. cbn in H.
    apply lookup_delete_Some in H as [_ H]. by apply Hok.
Qed.

Lemma reachable_store_ok w : reachable w -> store_ok w.
Proof.
  unfold reachable. revert w.
  apply (rtc_ind_r (fun w => store_ok w) initial); [apply store_ok_initial|].
  intros w w' _ Hstep Hok. by apply (store_ok_step w).
Qed.

(** ** Repeated validation *)

Lemma validateMany_live token nows w td :
  viewerTokens w !! token = Some td ->
  Forall (fun now => now <= expiresAt td) nows ->
  validateMany token nows w
  = Normal (w, replicate (List.length nows) (Some td)).
Proof.
  intros Hget Hall. induction Hall as [|now nows Hle _ IH]; [reflexivity|].
  cbn [validateMany]. rewrite (validate_live _ _ _ _ Hget Hle). cbn.
  rewrite IH. reflexivity.
Qed.

Lemma validateMany_absent token nows w :
  viewerTokens w !! token = None ->
  validateMany token nows w = Normal (w, replicate (List.length nows) None).
Proof.
  intros Hget. induction nows as [|now nows IH]; [reflexivity|].
  cbn [validateMany]. rewrite (validate_absent _ _ _ Hget). cbn.
  rewrite IH. reflexivity.
Qed.

Lemma example_world_lookup :
  viewerTokens example_world !! example_token = Some example_record.
Proof. apply generate_lookup. Qed.

(** ** Expiry *)

(** C1, as the code has it: a validation call at a clock reading strictly
    greater than [expiresAt] returns [null] and deletes the record; at a
    reading equal to [expiresAt] the record is still returned and the store
    is left as it was. *)
Theorem C1_expiry_is_strict token now w td :
  viewerTokens w !! token = Some td ->
  (expiresAt td < now ->
     validateViewerToken token now w
     = Normal (mkWorld (delete token (viewerTokens w)) (timers w), None)) /\
  (now = expiresAt td ->
     validateViewerToken token now w = Normal (w, Some td)).
Proof.
  intros Hget. split.
  - by apply validate_late.
  - intros ->. by apply validate_live.
Qed.

Lemma C1_expiry_is_strict_witness :
  viewerTokens example_world !! example_token = Some example_record /\
  expiresAt example_record < 900001 /\
  validateViewerToken example_token 900001 example_world
  = Normal (mkWorld (delete example_token (viewerTokens example_world))
              (timers example_world), None) /\
  900000 = expiresAt example_record /\
  validateViewerToken example_token 900000 example_world
  = Normal (example_world, Some example_record).
Proof.
  assert (Hlate : expiresAt example_record < 900001) by (cbn; lia).
  assert (Hat : 900000 = expiresAt example_record) by reflexivity.
  split; [exact example_world_lookup|].
  split; [exact Hlate|]. split; [|split; [exact Hat|]].
  - exact (proj1 (C1_expiry_is_strict example_token 900001 example_world
                    example_record example_world_lookup) Hlate).
  - exact (proj2 (C1_expiry_is_strict example_token 900000 example_world
                    example_record example_world_lookup) Hat).
Defined.

(** C1 as stated fails at the instant [expiresAt] itself: the record minted
    at 0 expires at 900000, and a validation at 900000 neither returns
    [null] nor deletes it. *)
Lemma C1_counterexample_at_expiresAt :
  viewerTokens example_world !! example_token = Some example_record /\
  900000 >= expiresAt example_record /\
  validateViewerToken example_token 900000 example_world
  = Normal (example_world, Some example_record) /\
  validateViewerToken example_token 900000 example_world
  <> Normal (mkWorld (delete example_token (viewerTokens example_world))
               (timers example_world), None).
Proof.
  assert (Hv : validateViewerToken example_token 900000 example_world
               = Normal (example_world, Some example_record)).
  { apply validate_live; [exact example_world_lookup|cbn; lia]. }
  split; [exact example_world_lookup|].
  split; [cbn; lia|].
  split; [exact Hv|].
  rewrite Hv. intros [= _ H].
Qed.

(** C4: the first validation that sees a record past its expiry deletes it
    and returns [null]; from then on the token has no record, so every
    later validation of it, at whatever clock readings, returns [null] on
    the not-found path and leaves the store alone. *)
Theorem C4_lazy_deletion_then_not_found token now w td :
  viewerTokens w !! token = Some td ->
  expiresAt td < now ->
  exists w',
    validateViewerToken token now w = Normal (w', None) /\
    viewerTokens w' = delete token (viewerTokens w) /\
    viewerTokens w' !! token = None /\
    forall nows,
      validateMany token nows w'
      = Normal (w', replicate (List.length nows) None).
Proof.
  intros Hget Hlt.
  exists (mkWorld (delete token (viewerTokens w)) (timers w)).
  assert (Hgone : viewerTokens
            (mkWorld (delete token (viewerTokens w)) (timers w)) !! token
          = None) by apply lookup_delete_eq.
  split; [by apply (validate_late _ _ _ td)|].
  split; [reflexivity|].
  split; [exact Hgone|].
  intros nows. by apply validateMany_absent.
Qed.

Lemma C4_lazy_deletion_then_not_found_witness :
  exists w',
    validateViewerToken example_token 900001 example_world
    = Normal (w', None) /\
    viewerTokens w' = delete example_token (viewerTokens example_world) /\
    viewerTokens w' !! example_token = None /\
    forall nows,
      validateMany example_token nows w'
      = Normal (w', replicate (List.length nows) None).
Proof.
  apply (C4_lazy_deletion_then_not_found example_token 900001 example_world
           example_record).
  - exact example_world_lookup.
  - cbn. lia.
Defined.

(** ** Validation of a live token *)

(** C6: any number of validations of a token that has not expired return
    the stored record each time and leave the whole process state (the
    record with its four fields, every other record, the pending timers)
    as it was; the outcome is the same whatever the [used] flag holds, and
    no run of the process ever sets that flag. *)
Theorem C6_live_validation_is_pure token nows w td :
  viewerTokens w !! token = Some td ->
  Forall (fun now => now <= expiresAt td) nows ->
  validateMany token nows w
    = Normal (w, replicate (List.length nows) (Some td)) /\
  (forall b,
     let w_b := mkWorld (<[token := with_used b td]> (viewerTokens w))
                  (timers w) in
     validateMany token nows w_b
     = Normal (w_b, replicate (List.length nows) (Some (with_used b td)))) /\
  (reachable w -> used td = false).
Proof.
  intros Hget Hall. split; [by apply validateMany_live|]. split.
  - intros b w_b. apply validateMany_live; [|exact Hall].
    subst w_b. cbn. apply lookup_insert_eq.
  - intros Hr. by destruct (reachable_store_ok w Hr token td Hget).
Qed.

Lemma C6_live_validation_is_pure_witness :
  validateMany example_token [0; 1; 899999; 900000] example_world
  = Normal (example_world, replicate 4 (Some example_record)).
Proof.
  apply (C6_live_validation_is_pure example_token [0; 1; 899999; 900000]
           example_world example_record).
  - exact example_world_lookup.
  - repeat constructor; cbn; lia.
Defined.

(** ** Deferred deletion *)

(** C9: the callback scheduled at mint time deletes if present. Run on a
    store that no longer holds the token (in particular after a late
    validation has deleted the record) it changes nothing; run twice it
    does what one run does; and the timer turn of the event loop that runs
    it on such a store leaves the store as it was. The callback has no
    failing path. *)
Theorem C9_deferred_deletion_idempotent token w :
  (viewerTokens w !! token = None -> timerCallback token w = w) /\
  timerCallback token (timerCallback token w) = timerCallback token w /\
  (forall td now,
     viewerTokens w !! token = Some td -> expiresAt td < now ->
     exists w', validateViewerToken token now w = Normal (w', None) /\
                timerCallback token w' = w') /\
  (forall i t,
     timers w !! i = Some t -> timer_token t = token ->
     viewerTokens w !! token = None ->
     exists w', fireTimer i w = Some w' /\ viewerTokens w' = viewerTokens w).
Proof.
  split; [|split; [|split]].
  - intros Hnone. destruct w as [store pending]. unfold timerCallback. cbn in *.
    by rewrite delete_id.
  - unfold timerCallback. cbn. by rewrite delete_delete_eq.
  - intros td now Hget Hlt. eexists. split; [by apply (validate_late _ _ _ td)|].
    unfold timerCallback. cbn. by rewrite delete_delete_eq.
  - intros i t Ht <- Hnone. unfold fireTimer. rewrite Ht. eexists.
    split; [reflexivity|]. cbn. by rewrite delete_id.
Qed.

Lemma C9_deferred_deletion_idempotent_witness :
  viewerTokens initial !! example_token = None /\
  timerCallback example_token initial = initial /\
  timerCallback example_token (timerCallback example_token example_world)
  = timerCallback example_token example_world.
Proof.
  assert (Hnone : viewerTokens initial !! example_token = None)
    by reflexivity.
  split; [exact Hnone|]. split.
  - exact (proj1 (C9_deferred_deletion_idempotent example_token initial)
             Hnone).
  - exact (proj1 (proj2 (C9_deferred_deletion_idempotent example_token
                           example_world))).
Defined.

(** ** Totality and the shape of failure *)

(** C10: for every token value, [undefined] and the empty string included,
    every clock reading and every state, [validateViewerToken] returns and
    does not throw; its result is [null] when the token has no record and
    the same [null] when the record is past its expiry, and it is a record
    only for a stored record that has not expired. *)
Theorem C10_validate_total_null_on_failure token now w :
  exists w' r,
    validateViewerToken token now w = Normal (w', r) /\
    (viewerTokens w !! token = None -> r = None) /\
    (forall td, viewerTokens w !! token = Some td ->
                expiresAt td < now -> r = None) /\
    (forall td, r = Some td ->
                viewerTokens w !! token = Some td /\ now <= expiresAt td).
Proof.
  destruct (viewerTokens w !! token) as [td|] eqn:Hget.
  - destruct (Z_lt_le_dec (expiresAt td) now) as [Hlt|Hle].
    + eexists _, None. split; [by apply (validate_late _ _ _ td)|].
      split; [done|]. split; [done|]. intros td' [=].
    + exists w, (Some td). split; [by apply validate_live|].
      split; [done|]. split.
      * intros td' [= <-] Hlt. lia.
      * intros td' [= <-]. done.
  - exists w, None. split; [by apply validate_absent|].
    split; [done|]. split; [done|]. intros td' [=].
Qed.

Lemma C10_validate_total_null_on_failure_witness :
  (exists w' r, validateViewerToken JUndefined 0 example_world
                = Normal (w', r)) /\
  (exists w' r, validateViewerToken (JStr "") 0 example_world
                = Normal (w', r)).
Proof.
  split.
  - destruct (C10_validate_total_null_on_failure JUndefined 0 example_world)
      as (w' & r & H & _). exists w', r. exact H.
  - destruct (C10_validate_total_null_on_failure (JStr "") 0 example_world)
      as (w' & r & H & _). exists w', r. exact H.
Defined.

(** ** Minting *)

Lemma reachable_keys_truthy w k td :
  reachable w -> viewerTokens w !! k = Some td -> truthy k = true.
Proof.
  intros Hr Hget. apply minted_key_truthy.
  by destruct (reachable_store_ok w Hr k td Hget).
Qed.

Lemma strict_ne_same v : strict_ne v v = false.
Proof. unfold strict_ne. by rewrite bool_decide_eq_true_2. Qed.

Lemma strict_ne_str a b : a <> b -> strict_ne (JStr a) (JStr b) = true.
Proof.
  intros Hne. unfold strict_ne. rewrite bool_decide_eq_false_2; [done|].
  intros [= ->]. done.
Qed.

(** The gate of the two read handlers, once the token is known to be
    truthy and [validateViewerToken] is known to return [r] without
    changing the state. *)
Lemma get_api_file_after fid token now w r :
  truthy token = true ->
  validateViewerToken token now w = Normal (w, r) ->
  get_api_file fid token now w
  = (rejected ← token_rejected r fid;
     if (rejected : bool)
     then Normal (w, ReplyError 401 "Invalid or expired token")
     else Normal (w, FetchFile fid)).
Proof. intros Ht Hv. unfold get_api_file. rewrite Ht, Hv. reflexivity. Qed.

Lemma get_viewer_after fid qname token now w r :
  truthy token = true ->
  validateViewerToken token now w = Normal (w, r) ->
  get_viewer fid qname token now w
  = (rejected ← token_rejected r fid;
     if (rejected : bool)
     then Normal (w, ReplyError 401 "Invalid or expired token. Tokens are valid for 15 minutes.")
     else Normal (w, RenderViewer fid (js_or qname (JStr "document")) token)).
Proof. intros Ht Hv. unfold get_viewer. rewrite Ht, Hv. reflexivity. Qed.

(** C3: right after [generateViewerToken(fileId, filename)] has returned
    [T] at clock reading [now], and at any reading [now'] before
    [now] + 15 minutes, [validateViewerToken(T)] returns the stored record,
    which carries the [fileId] and [filename] given to the mint and
    [expiresAt = now + 900000]; the file-id comparison of the read
    handlers accepts it for that [fileId], so both handlers pass their
    gate, and the state is unchanged. *)
Theorem C3_mint_then_validate fid name rnd now now' w :
  List.length rnd = 32%nat ->
  now' < now + 15 * 60 * 1000 ->
  let w1 := (generateViewerToken (JStr fid) name rnd now w).1 in
  let T := (generateViewerToken (JStr fid) name rnd now w).2 in
  let td := mkTokenData (JStr fid) name (now + 15 * 60 * 1000) false in
  viewerTokens w1 !! JStr T = Some td /\
  validateViewerToken (JStr T) now' w1 = Normal (w1, Some td) /\
  token_rejected (Some td) fid = Normal false /\
  get_api_file fid (JStr T) now' w1 = Normal (w1, FetchFile fid) /\
  forall qname,
    get_viewer fid qname (JStr T) now' w1
    = Normal (w1, RenderViewer fid (js_or qname (JStr "document")) (JStr T)).
Proof.
  intros Hlen Hnow w1 T td.
  assert (Hget : viewerTokens w1 !! JStr T = Some td)
    by apply generate_lookup.
  assert (Hv : validateViewerToken (JStr T) now' w1 = Normal (w1, Some td)).
  { apply validate_live; [exact Hget|]. cbn. lia. }
  assert (Hacc : token_rejected (Some td) fid = Normal false).
  { unfold token_rejected. cbn. by rewrite strict_ne_same. }
  assert (Ht : truthy (JStr T) = true) by by apply toHex_truthy.
  split; [exact Hget|]. split; [exact Hv|]. split; [exact Hacc|]. split.
  - rewrite (get_api_file_after _ _ _ _ _ Ht Hv), Hacc. reflexivity.
  - intros qname.
    rewrite (get_viewer_after _ _ _ _ _ _ Ht Hv), Hacc. reflexivity.
Qed.

Lemma C3_mint_then_validate_witness :
  validateViewerToken example_token 1 example_world
  = Normal (example_world, Some example_record) /\
  get_api_file "42" example_token 1 example_world
  = Normal (example_world, FetchFile "42").
Proof.
  destruct (C3_mint_then_validate "42" (JStr "a.pdf") example_rnd 0 1 initial)
    as (_ & Hv & _ & Hf & _).
  - reflexivity.
  - lia.
  - split; [exact Hv|exact Hf].
Defined.

(** C8: a mint request whose [fileId] is missing is rejected before any
    record is created: when the body carries no [fileId] ([undefined]),
    [null] or the empty string the handler answers 400, and when there is
    no parsed body at all the destructuring throws and the [catch] answers
    500; in both cases neither the store nor the pending timers change and
    the answer carries no token. A request with a [fileId] and no
    [filename] is served, and the record it creates has the filename
    ["document"]. *)
Theorem C8_generate_requires_fileId body_fileId body_filename rnd now w :
  post_generate_viewer_token None rnd now w
  = (w, ReplyError 500
          "Cannot destructure property 'fileId' of 'req.body' as it is undefined.") /\
  (truthy body_fileId = false ->
   post_generate_viewer_token (Some (mkMintBody body_fileId body_filename))
     rnd now w
   = (w, ReplyError 400 "Missing fileId")) /\
  (truthy body_fileId = true ->
   exists w',
     post_generate_viewer_token (Some (mkMintBody body_fileId JUndefined))
       rnd now w
     = (w', ReplyToken (toHex rnd) 900) /\
     viewerTokens w' !! JStr (toHex rnd)
     = Some (mkTokenData body_fileId (JStr "document")
               (now + 15 * 60 * 1000) false)).
Proof.
  split; [reflexivity|].
  split; intros Ht; unfold post_generate_viewer_token, generate_try;
    cbn; rewrite Ht; cbn.
  - reflexivity.
  - eexists. split; [reflexivity|]. cbn. by rewrite lookup_insert_eq.
Qed.

Lemma C8_generate_requires_fileId_witness :
  post_generate_viewer_token
    (Some (mkMintBody JUndefined (JStr "a.pdf"))) example_rnd 0 initial
  = (initial, ReplyError 400 "Missing fileId") /\
  post_generate_viewer_token
    (Some (mkMintBody (JStr "") (JStr "a.pdf"))) example_rnd 0 initial
  = (initial, ReplyError 400 "Missing fileId") /\
  exists w',
    post_generate_viewer_token
      (Some (mkMintBody (JStr "42") JUndefined)) example_rnd 0 initial
    = (w', ReplyToken (toHex example_rnd) 900) /\
    viewerTokens w' !! JStr (toHex example_rnd)
    = Some (mkTokenData (JStr "42") (JStr "document") 900000 false).
Proof.
  split; [|split].
  - apply (C8_generate_requires_fileId JUndefined (JStr "a.pdf")
             example_rnd 0 initial). reflexivity.
  - apply (C8_generate_requires_fileId (JStr "") (JStr "a.pdf")
             example_rnd 0 initial). reflexivity.
  - apply (C8_generate_requires_fileId (JStr "42") JUndefined
             example_rnd 0 initial). reflexivity.
Defined.

(** ** The file-id check of the read handlers *)

(** C5: for a stored, unexpired record bound to [F] and a requested file
    id [E] other than [F], [validateViewerToken] returns the record (the
    failure is neither the not-found nor the expiry path), the file-id
    comparison rejects, both read handlers answer 401, and the state after
    the failing call is the state before it; a later request for [F] with
    the same token, made while the record has not expired, passes. *)
Theorem C5_mismatch_rejects_and_keeps_record token w td F E now now2 :
  truthy token = true ->
  viewerTokens w !! token = Some td ->
  fileId td = JStr F ->
  E <> F ->
  now <= expiresAt td ->
  now2 <= expiresAt td ->
  validateViewerToken token now w = Normal (w, Some td) /\
  token_rejected (Some td) E = Normal true /\
  get_api_file E token now w
    = Normal (w, ReplyError 401 "Invalid or expired token") /\
  (forall qname,
     get_viewer E qname token now w
     = Normal (w, ReplyError 401 "Invalid or expired token. Tokens are valid for 15 minutes.")) /\
  validateViewerToken token now2 w = Normal (w, Some td) /\
  get_api_file F token now2 w = Normal (w, FetchFile F).
Proof.
  intros Ht Hget HF Hne Hnow Hnow2.
  assert (Hv : validateViewerToken token now w = Normal (w, Some td))
    by by apply validate_live.
  assert (Hv2 : validateViewerToken token now2 w = Normal (w, Some td))
    by by apply validate_live.
  assert (Hrej : token_rejected (Some td) E = Normal true).
  { unfold token_rejected. cbn. rewrite HF.
    by rewrite strict_ne_str by congruence. }
  assert (Hacc : token_rejected (Some td) F = Normal false).
  { unfold token_rejected. cbn. rewrite HF. by rewrite strict_ne_same. }
  split; [exact Hv|]. split; [exact Hrej|]. split; [|split; [|split]].
  - rewrite (get_api_file_after _ _ _ _ _ Ht Hv), Hrej. reflexivity.
  - intros qname.
    rewrite (get_viewer_after _ _ _ _ _ _ Ht Hv), Hrej. reflexivity.
  - exact Hv2.
  - rewrite (get_api_file_after _ _ _ _ _ Ht Hv2), Hacc. reflexivity.
Qed.

Lemma C5_mismatch_rejects_and_keeps_record_witness :
  get_api_file "99" example_token 5 example_world
    = Normal (example_world, ReplyError 401 "Invalid or expired token") /\
  get_api_file "42" example_token 6 example_world
    = Normal (example_world, FetchFile "42").
Proof.
  destruct (C5_mismatch_rejects_and_keeps_record example_token example_world
              example_record "42" "99" 5 6)
    as (_ & _ & Hrej & _ & _ & Hacc).
  - reflexivity.
  - exact example_world_lookup.
  - reflexivity.
  - discriminate.
  - cbn. lia.
  - cbn. lia.
  - split; [exact Hrej|exact Hacc].
Defined.

(** ** The upload handler *)

(** C2: the upload handler asks of the token only that
    [validateViewerToken] returns a record. For a stored, unexpired record,
    bound to whatever file id, and a request that presents its token with
    whatever [fileId] in the body: the token check passes with the state
    unchanged and no answer is a 401; the only answers short of HubSpot
    are the 500 of a request without a parsed body (the destructuring of
    [req.body] throws) and the 400s for a missing file or buffer; and a
    request with a body and a file goes on to replace the file named in
    the body (or to upload a new one when the body names none). The
    [fileId] of the record does not enter the outcome. *)
Theorem C2_upload_accepts_token_of_any_file req now w td :
  truthy (upload_token req) = true ->
  viewerTokens w !! upload_token req = Some td ->
  now <= expiresAt td ->
  validateViewerToken (upload_token req) now w = Normal (w, Some td) /\
  (forall w' status error,
     post_hubspot_upload req now w = (w', ReplyError status error) ->
     (status = 500 /\ upload_body req = None) \/
     (status = 400 /\ is_Some (upload_body req) /\
      (upload_file req = None \/
       exists file, upload_file req = Some file /\ buffer file = None))) /\
  (forall body file bytes,
     upload_body req = Some body ->
     upload_file req = Some file -> buffer file = Some bytes ->
     post_hubspot_upload req now w
     = (w, if truthy (up_fileId body)
           then ReplaceFile (up_fileId body)
                  (js_or (up_filename body) (originalname file))
           else UploadNew (js_or (up_filename body) (originalname file)))).
Proof.
  intros Ht Hget Hnow.
  assert (Hv : validateViewerToken (upload_token req) now w
               = Normal (w, Some td)) by by apply validate_live.
  split; [exact Hv|].
  unfold post_hubspot_upload, upload_try. rewrite Ht, Hv. cbn.
  split.
  - intros w' status error.
    destruct (upload_body req) as [body|]; cbn;
      [|intros [= <- <- <-]; by left].
    destruct (upload_file req) as [file|];
      [|intros [= <- <- <-]; right; auto].
    destruct (buffer file) as [bytes|] eqn:Hbuf;
      [|intros [= <- <- <-]; right; split; [done|];
        split; [done|right; by exists file]].
    destruct (truthy (up_fileId body)); intros [=].
  - intros body file bytes -> -> ->. cbn.
    destruct (truthy (up_fileId body)); reflexivity.
Qed.

Lemma C2_upload_accepts_token_of_any_file_witness :
  fileId example_record = JStr "42" /\
  post_hubspot_upload example_upload 5 example_world
  = (example_world, ReplaceFile (JStr "99") (JStr "edited.pdf")).
Proof.
  split; [reflexivity|].
  destruct (C2_upload_accepts_token_of_any_file example_upload 5
              example_world example_record) as (_ & _ & Hgo).
  - reflexivity.
  - exact example_world_lookup.
  - cbn. lia.
  - exact (Hgo _ _ _ eq_refl eq_refl eq_refl).
Defined.

(** ** Two mints *)

(** Deleting the record of one token commutes with validating another. *)
Lemma validate_frame k1 k2 now w :
  k1 <> k2 ->
  validateViewerToken k2 now (timerCallback k1 w)
  = '(w', r) ← validateViewerToken k2 now w; Normal (timerCallback k1 w', r).
Proof.
  intros Hne. unfold validateViewerToken, timerCallback. cbn.
  rewrite lookup_delete_ne by done.
  destruct (viewerTokens w !! k2) as [td|]; cbn; [|reflexivity].
  destruct (now >? expiresAt td); cbn; [|reflexivity].
  by rewrite delete_delete.
Qed.

Lemma generate_token_distinct fid1 name1 fid2 name2 rnd1 rnd2 t1 t2 w1 w2 :
  (generateViewerToken fid1 name1 rnd1 t1 w1).2
  = (generateViewerToken fid2 name2 rnd2 t2 w2).2 <->
  rnd1 = rnd2.
Proof. cbn. split; [apply toHex_inj|by intros ->]. Qed.

(** When the random source returns the same 32 bytes twice, the second
    mint writes over the record of the first: one key, one record. *)
Lemma generate_same_draw_overwrites fid1 name1 fid2 name2 rnd t1 t2 w :
  let w1 := (generateViewerToken fid1 name1 rnd t1 w).1 in
  let w2 := (generateViewerToken fid2 name2 rnd t2 w1).1 in
  viewerTokens w2
  = <[JStr (toHex rnd) := mkTokenData fid2 name2 (t2 + 900000) false]>
      (viewerTokens w).
Proof. cbn. by rewrite insert_insert_eq. Qed.

(** C7: two consecutive mints, for the same or for different file ids,
    whose 32-byte random draws differ return two different token strings,
    and after the second mint the store holds one record under each. The
    two validate independently: running the deferred deletion of either
    token leaves the record of the other in place, and when a late
    validation of either one deletes its expired record, the other still
    validates to its own record; in any state whatever, deleting the record
    of one and validating the other commute. *)
Theorem C7_two_mints_distinct_and_independent
    fid1 name1 fid2 name2 rnd1 rnd2 t1 t2 w :
  List.length rnd1 = 32%nat ->
  List.length rnd2 = 32%nat ->
  rnd1 <> rnd2 ->
  let w1 := (generateViewerToken fid1 name1 rnd1 t1 w).1 in
  let T1 := (generateViewerToken fid1 name1 rnd1 t1 w).2 in
  let w2 := (generateViewerToken fid2 name2 rnd2 t2 w1).1 in
  let T2 := (generateViewerToken fid2 name2 rnd2 t2 w1).2 in
  let td1 := mkTokenData fid1 name1 (t1 + 15 * 60 * 1000) false in
  let td2 := mkTokenData fid2 name2 (t2 + 15 * 60 * 1000) false in
  T1 <> T2 /\
  viewerTokens w2 !! JStr T1 = Some td1 /\
  viewerTokens w2 !! JStr T2 = Some td2 /\
  viewerTokens (timerCallback (JStr T1) w2) !! JStr T2 = Some td2 /\
  viewerTokens (timerCallback (JStr T2) w2) !! JStr T1 = Some td1 /\
  (forall late now,
     expiresAt td1 < late -> now <= expiresAt td2 ->
     exists w3,
       validateViewerToken (JStr T1) late w2 = Normal (w3, None) /\
       validateViewerToken (JStr T2) now w3 = Normal (w3, Some td2)) /\
  (forall late now,
     expiresAt td2 < late -> now <= expiresAt td1 ->
     exists w3,
       validateViewerToken (JStr T2) late w2 = Normal (w3, None) /\
       validateViewerToken (JStr T1) now w3 = Normal (w3, Some td1)) /\
  (forall now w',
     validateViewerToken (JStr T2) now (timerCallback (JStr T1) w')
     = '(w'', r) ← validateViewerToken (JStr T2) now w';
       Normal (timerCallback (JStr T1) w'', r)) /\
  (forall now w',
     validateViewerToken (JStr T1) now (timerCallback (JStr T2) w')
     = '(w'', r) ← validateViewerToken (JStr T1) now w';
       Normal (timerCallback (JStr T2) w'', r)).
Proof.
  intros Hlen1 Hlen2 Hrnd w1 T1 w2 T2 td1 td2.
  assert (HT : T1 <> T2).
  { intros Heq. apply Hrnd. by apply toHex_inj. }
  assert (Hk : JStr T1 <> JStr T2) by congruence.
  assert (Hget2 : viewerTokens w2 !! JStr T2 = Some td2)
    by apply generate_lookup.
  assert (Hget1 : viewerTokens w2 !! JStr T1 = Some td1).
  { subst w2. rewrite generate_lookup_other by exact Hk.
    apply generate_lookup. }
  split; [exact HT|]. split; [exact Hget1|]. split; [exact Hget2|].
  split; [|split; [|split; [|split; [|split]]]].
  - cbn [timerCallback viewerTokens]. by rewrite lookup_delete_ne.
  - cbn [timerCallback viewerTokens]. by rewrite lookup_delete_ne.
  - intros late now Hlate Hnow. eexists.
    split; [by apply (validate_late _ _ _ td1)|].
    apply validate_live; [|exact Hnow].
    cbn [viewerTokens]. by rewrite lookup_delete_ne.
  - intros late now Hlate Hnow. eexists.
    split; [by apply (validate_late _ _ _ td2)|].
    apply validate_live; [|exact Hnow].
    cbn [viewerTokens]. by rewrite lookup_delete_ne.
  - intros now w'. by apply validate_frame.
  - intros now w'. by apply validate_frame.
Qed.

Lemma C7_two_mints_distinct_and_independent_witness :
  let w2 := (generateViewerToken (JStr "42") (JStr "a.pdf") other_rnd 10
               example_world).1 in
  toHex example_rnd <> toHex other_rnd /\
  viewerTokens w2 !! JStr (toHex example_rnd) = Some example_record /\
  viewerTokens w2 !! JStr (toHex other_rnd)
  = Some (mkTokenData (JStr "42") (JStr "a.pdf") 900010 false).
Proof.
  destruct (C7_two_mints_distinct_and_independent
              (JStr "42") (JStr "a.pdf") (JStr "42") (JStr "a.pdf")
              example_rnd other_rnd 0 10 initial)
    as (Hne & H1 & H2 & _).
  - reflexivity.
  - reflexivity.
  - discriminate.
  - split; [exact Hne|]. split; [exact H1|exact H2].
Defined.

(** ** Matching and the language of an expression *)

Lemma Lang_seq_inv r1 r2 s :
  Lang (RSeq r1 r2) s ->
  exists s1 s2, s = (s1 ++ s2)%list /\ Lang r1 s1 /\ Lang r2 s2.
Proof. inversion 1; subst; eauto. Qed.

Lemma Lang_alt_inv r1 r2 s : Lang (RAlt r1 r2) s -> Lang r1 s \/ Lang r2 s.
Proof. inversion 1; subst; auto. Qed.

Lemma Lang_char_inv p s :
  Lang (RChar p) s -> exists c, s = [c] /\ p c = true.
Proof. inversion 1; subst; eauto. Qed.

Lemma Lang_empty_inv s : Lang REmpty s -> s = [].
Proof. by inversion 1. Qed.

Lemma Lang_none_inv s : ~ Lang RNone s.
Proof. inversion 1. Qed.

Lemma nullable_Lang r : nullable r = true <-> Lang r [].
Proof.
  induction r as [| |p|r1 IH1 r2 IH2|r1 IH1 r2 IH2|r IH]; cbn.
  - split; [done|]. intros H. by apply Lang_none_inv in H.
  - split; [constructor|done].
  - split; [done|]. intros H. by apply Lang_char_inv in H as (c & ? & _).
  - rewrite andb_true_iff, IH1, IH2. split.
    + intros [H1 H2]. apply (Lang_seq _ _ [] [] H1 H2).
    + intros H. apply Lang_seq_inv in H as (s1 & s2 & Heq & H1 & H2).
      symmetry in Heq. apply app_eq_nil in Heq as [-> ->]. done.
  - rewrite orb_true_iff, IH1, IH2. split.
    + intros [H|H]; [by apply Lang_alt_l|by apply Lang_alt_r].
    + apply Lang_alt_inv.
  - split; [constructor|done].
Qed.

(** A repetition that matches [c :: s] has a round that reads [c]. *)
Lemma Lang_star_cons r c s :
  Lang (RStar r) (c :: s) ->
  exists s1 s2, s = (s1 ++ s2)%list /\ Lang r (c :: s1) /\ Lang (RStar r) s2.
Proof.
  intros H. remember (RStar r) as r' eqn:Hr. remember (c :: s) as w eqn:Hw.
  induction H as [| | | | | |r0 s1 s2 H1 _ H2 IH2]; try discriminate.
  injection Hr as ->.
  destruct s1 as [|c1 s1].
  - cbn in Hw. by apply IH2.
  - cbn in Hw. injection Hw as -> <-. by exists s1, s2.
Qed.

Lemma after_Lang c r s : Lang (after c r) s <-> Lang r (c :: s).
Proof.
  revert s. induction r as [| |p|r1 IH1 r2 IH2|r1 IH1 r2 IH2|r IH];
    intros s; cbn.
  - split; intros H; by apply Lang_none_inv in H.
  - split; intros H; [by apply Lang_none_inv in H|].
    by apply Lang_empty_inv in H.
  - destruct (p c) eqn:Hp.
    + split; intros H.
      * apply Lang_empty_inv in H as ->. by constructor.
      * apply Lang_char_inv in H as (c' & [= <- ->] & _). constructor.
    + split; intros H; [by apply Lang_none_inv in H|].
      apply Lang_char_inv in H as (c' & [= <- ->] & Hp'). congruence.
  - assert (Hfirst : Lang (RSeq (after c r1) r2) s ->
                     Lang (RSeq r1 r2) (c :: s)).
    { intros H. apply Lang_seq_inv in H as (s1 & s2 & -> & H1 & H2).
      apply IH1 in H1. apply (Lang_seq _ _ (c :: s1) s2 H1 H2). }
    assert (Hback : Lang (RSeq r1 r2) (c :: s) ->
                    Lang (RSeq (after c r1) r2) s \/
                    (Lang r1 [] /\ Lang (after c r2) s)).
    { intros H. apply Lang_seq_inv in H as (s1 & s2 & Heq & H1 & H2).
      destruct s1 as [|c1 s1]; cbn in Heq.
      - right. subst s2. split; [done|]. by apply IH2.
      - injection Heq as <- ->. left.
        apply Lang_seq; [by apply IH1|done]. }
    destruct (nullable r1) eqn:Hn.
    + split.
      * intros H. apply Lang_alt_inv in H as [H|H]; [by apply Hfirst|].
        apply nullable_Lang in Hn.
        apply (Lang_seq _ _ [] (c :: s) Hn). by apply IH2.
      * intros H. destruct (Hback H) as [H'|[_ H']];
          [by apply Lang_alt_l|by apply Lang_alt_r].
    + split; [exact Hfirst|].
      intros H. destruct (Hback H) as [H'|[H' _]]; [done|].
      apply nullable_Lang in H'. congruence.
  - split; intros H; apply Lang_alt_inv in H as [H|H];
      try (apply Lang_alt_l; by apply IH1);
      apply Lang_alt_r; by apply IH2.
  - split; intros H.
    + apply Lang_seq_inv in H as (s1 & s2 & -> & H1 & H2).
      apply IH in H1. apply (Lang_star_more _ (c :: s1) s2 H1 H2).
    + apply Lang_star_cons in H as (s1 & s2 & -> & H1 & H2).
      apply Lang_seq; [by apply IH|done].
Qed.

Lemma matches_Lang r s : matches r s = true <-> Lang r s.
Proof.
  revert r. induction s as [|c s IH]; intros r; cbn.
  - apply nullable_Lang.
  - rewrite IH. apply after_Lang.
Qed.

(** ** Case folding *)

Lemma toLowerAscii_inv x c :
  toLowerAscii x = c ->
  ~ (97 <= N_of_ascii c <= 122)%N ->
  x = c.
Proof.
  unfold toLowerAscii. intros H Hc.
  destruct ((65 <=? N_of_ascii x)%N && (N_of_ascii x <=? 90)%N) eqn:Hup;
    [|done].
  exfalso. apply Hc. subst c.
  apply andb_true_iff in Hup as [H1 H2].
  apply N.leb_le in H1, H2.
  rewrite N_ascii_embedding by lia. lia.
Qed.

Ltac not_a_letter :=
  let H1 := fresh in let H2 := fresh in
  cbv; intros [H1 H2]; first [by apply H1|by apply H2].

Lemma eq_ci_app a1 a2 b1 b2 :
  eq_ci a1 b1 -> eq_ci a2 b2 -> eq_ci (a1 ++ a2) (b1 ++ b2).
Proof. unfold eq_ci. intros H1 H2. by rewrite !map_app, H1, H2. Qed.

Lemma eq_ci_length a b : eq_ci a b -> List.length a = List.length b.
Proof.
  unfold eq_ci. intros H.
  by rewrite <- (length_map toLowerAscii a), H, length_map.
Qed.

Lemma eq_ci_refl a : eq_ci a a.
Proof. reflexivity. Qed.

(** ** What the pieces of the pattern match *)

Lemma Lang_ci c s :
  Lang (ci c) s <-> exists x, s = [x] /\ toLowerAscii x = toLowerAscii c.
Proof.
  unfold ci. split.
  - intros H. apply Lang_char_inv in H as (x & -> & Hx).
    exists x. split; [done|]. by apply Ascii.eqb_eq.
  - intros (x & -> & Hx). constructor. by apply Ascii.eqb_eq.
Qed.

Lemma Lang_lit_ci lit s : Lang (lit_ci lit) s <-> eq_ci s (chars lit).
Proof.
  unfold lit_ci, eq_ci. revert s.
  induction (chars lit) as [|c l IH]; intros s; cbn [fold_right map].
  - split.
    + intros H. by apply Lang_empty_inv in H as ->.
    + intros H. destruct s; [constructor|discriminate].
  - split.
    + intros H. apply Lang_seq_inv in H as (s1 & s2 & -> & H1 & H2).
      apply Lang_ci in H1 as (x & -> & Hx). apply IH in H2.
      cbn. by rewrite Hx, H2.
    + intros H. destruct s as [|x s]; [discriminate|].
      cbn in H. injection H as Hx Hs.
      apply (Lang_seq _ _ [x] s); [|by apply IH].
      apply Lang_ci. by exists x.
Qed.

Lemma Lang_opt r s : Lang (ROpt r) s <-> s = [] \/ Lang r s.
Proof.
  unfold ROpt. split.
  - intros H. apply Lang_alt_inv in H as [H|H]; [|by right].
    left. by apply Lang_empty_inv.
  - intros [->|H]; [apply Lang_alt_l; constructor|by apply Lang_alt_r].
Qed.

Lemma Lang_star_rounds r s :
  Lang (RStar r) s <->
  exists rounds, s = List.concat rounds /\ Forall (Lang r) rounds.
Proof.
  split.
  - intros H. remember (RStar r) as r' eqn:Hr.
    induction H as [| | | | | |r0 s1 s2 H1 _ H2 IH2]; try discriminate.
    + by exists [].
    + injection Hr as ->. destruct (IH2 eq_refl) as (rounds & -> & Hall).
      exists (s1 :: rounds). split; [done|]. by constructor.
  - intros (rounds & -> & Hall).
    induction Hall as [|s1 rounds H1 _ IH]; cbn; [constructor|].
    by apply Lang_star_more.
Qed.

Lemma Lang_star_any s : Lang (RStar anyChar) s.
Proof.
  induction s as [|c s IH]; [constructor|].
  apply (Lang_star_more _ [c] s); [by constructor|done].
Qed.

Lemma Lang_plus_class p s :
  Lang (RPlus (RChar p)) s <-> s <> [] /\ Forall (fun c => p c = true) s.
Proof.
  unfold RPlus. split.
  - intros H. apply Lang_seq_inv in H as (s1 & s2 & -> & H1 & H2).
    apply Lang_char_inv in H1 as (c & -> & Hc). split; [done|].
    constructor; [done|].
    apply Lang_star_rounds in H2 as (rounds & -> & Hall).
    induction Hall as [|s1 rounds H1 _ IH]; cbn; [constructor|].
    apply Lang_char_inv in H1 as (c1 & -> & Hc1). by constructor.
  - intros [Hne Hall]. destruct Hall as [|c s Hc Hall]; [done|].
    apply (Lang_seq _ _ [c] s); [by constructor|].
    clear Hne Hc. induction Hall as [|c' s Hc' _ IH]; [constructor|].
    apply (Lang_star_more _ [c'] s); [by constructor|done].
Qed.

Lemma Lang_label s :
  Lang (RSeq (RPlus (RChar labelChar)) (ci ".")) s <->
  exists l, s = (l ++ chars ".")%list /\ label_ok l.
Proof.
  split.
  - intros H. apply Lang_seq_inv in H as (l & dot & -> & Hl & Hdot).
    apply Lang_plus_class in Hl. apply Lang_ci in Hdot as (x & -> & Hx).
    apply toLowerAscii_inv in Hx; [|not_a_letter].
    subst x. by exists l.
  - intros (l & -> & Hl). apply Lang_seq; [by apply Lang_plus_class|].
    apply Lang_ci. by exists "."%char.
Qed.

Lemma Lang_labels s :
  Lang (RStar (RSeq (RPlus (RChar labelChar)) (ci "."))) s <->
  exists labels,
    s = List.concat (map (fun l => l ++ chars ".")%list labels) /\
    Forall label_ok labels.
Proof.
  rewrite Lang_star_rounds. split.
  - intros (rounds & -> & Hall).
    induction Hall as [|s1 rounds H1 _ (labels & Heq & Hok)].
    + by exists [].
    + apply Lang_label in H1 as (l & -> & Hl).
      exists (l :: labels). cbn. rewrite Heq. split; [done|by constructor].
  - intros (labels & -> & Hall).
    exists (map (fun l => l ++ chars ".")%list labels). split; [done|].
    induction Hall as [|l labels Hl _ IH]; cbn; constructor; [|done].
    apply Lang_label. by exists l.
Qed.

Lemma eq_ci_separator s : eq_ci s (chars "://") -> s = chars "://".
Proof.
  unfold eq_ci. intros H.
  destruct s as [|a [|b [|c [|]]]]; try discriminate.
  cbn in H. injection H as Ha Hb Hc.
  apply toLowerAscii_inv in Ha; [|not_a_letter].
  apply toLowerAscii_inv in Hb; [|not_a_letter].
  apply toLowerAscii_inv in Hc; [|not_a_letter].
  by subst.
Qed.

Lemma Lang_scheme s1 s2 :
  Lang (lit_ci "http") s1 -> Lang (ROpt (ci "s")) s2 ->
  eq_ci (s1 ++ s2) (chars "http") \/ eq_ci (s1 ++ s2) (chars "https").
Proof.
  intros H1 H2. apply Lang_lit_ci in H1. apply Lang_opt in H2 as [->|H2].
  - left. by rewrite app_nil_r.
  - right. apply Lang_ci in H2 as (x & -> & Hx).
    apply (eq_ci_app s1 [x] (chars "http") (chars "s")); [done|].
    unfold eq_ci. cbn. by rewrite Hx.
Qed.

Lemma scheme_Lang scheme :
  eq_ci scheme (chars "http") \/ eq_ci scheme (chars "https") ->
  exists s1 s2, scheme = (s1 ++ s2)%list /\
    Lang (lit_ci "http") s1 /\ Lang (ROpt (ci "s")) s2.
Proof.
  intros [H|H].
  - exists scheme, []. rewrite app_nil_r. split; [done|].
    split; [by apply Lang_lit_ci|apply Lang_opt; by left].
  - pose proof (eq_ci_length _ _ H) as Hlen.
    destruct scheme as [|a [|b [|c [|d [|e [|]]]]]]; try discriminate.
    exists [a; b; c; d], [e]. split; [done|].
    unfold eq_ci in H. cbn in H. injection H as Ha Hb Hc Hd He.
    split.
    + apply Lang_lit_ci. unfold eq_ci. cbn. by rewrite Ha, Hb, Hc, Hd.
    + apply Lang_opt. right. apply Lang_ci. by exists e.
Qed.

Lemma domainPattern_shape domain o :
  test (domainPattern domain) o = true <-> origin_shape domain (chars o).
Proof.
  unfold test, origin_shape. rewrite matches_Lang. unfold domainPattern.
  split.
  - intros H.
    apply Lang_seq_inv in H as (s1 & t1 & -> & H1 & H).
    apply Lang_seq_inv in H as (s2 & t2 & -> & H2 & H).
    apply Lang_seq_inv in H as (s3 & t3 & -> & H3 & H).
    apply Lang_seq_inv in H as (s4 & s5 & -> & H4 & H5).
    apply Lang_lit_ci, eq_ci_separator in H3 as ->.
    apply Lang_labels in H4 as (labels & -> & Hok).
    apply Lang_lit_ci in H5.
    exists (s1 ++ s2)%list, labels, s5. rewrite <- app_assoc.
    split; [done|]. split; [by apply Lang_scheme|]. split; [|done].
    exact Hok.
  - intros (scheme & labels & dom & Ho & Hscheme & Hok & Hdom).
    rewrite Ho.
    apply scheme_Lang in Hscheme as (s1 & s2 & -> & H1 & H2).
    rewrite <- app_assoc.
    apply Lang_seq; [done|]. apply Lang_seq; [done|].
    apply Lang_seq; [by apply Lang_lit_ci|].
    apply Lang_seq; [|by apply Lang_lit_ci].
    apply Lang_labels. by exists labels.
Qed.

(** X1: each pattern of HUBSPOT_DOMAIN_PATTERNS accepts exactly the
    origins made of the scheme [http] or [https], [://], any number of
    host labels of letters, digits and hyphens each followed by a dot,
    and the domain, all up to letter case; nothing may follow the domain
    (no port, no path). *)
Theorem X1_domain_pattern_accepts_exactly domain o :
  test (domainPattern domain) o = true <-> origin_shape domain (chars o).
Proof. apply domainPattern_shape. Qed.

Lemma chars_app a b : chars (a ++ b) = (chars a ++ chars b)%list.
Proof.
  unfold chars. induction a as [|c a IH]; simpl; [done|].
  f_equal. exact IH.
Qed.

Lemma last_labels scheme labels :
  let before := (scheme ++ chars "://" ++
                 List.concat (map (fun l => l ++ chars ".")%list labels))%list in
  last before = Some "/"%char \/ last before = Some "."%char.
Proof.
  cbn zeta. destruct labels as [|l labels _] using rev_ind.
  - left. cbn. rewrite last_app. reflexivity.
  - right. rewrite map_app, concat_app, !last_app.
    cbn [map List.concat]. rewrite app_nil_r, last_app. reflexivity.
Qed.

(** A host that merely ends in the domain is refused: between the scheme
    and the domain the pattern admits whole labels only, so the character
    in front of the domain is [/] or [.]. *)
Lemma domainPattern_rejects_lookalike domain pre c dom :
  c <> "/"%char -> c <> "."%char ->
  eq_ci (chars dom) (chars domain) ->
  test (domainPattern domain) (pre ++ String c dom) = false.
Proof.
  intros Hslash Hdot Hdom.
  destruct (test (domainPattern domain) (pre ++ String c dom)) eqn:Ht;
    [|done].
  exfalso. apply domainPattern_shape in Ht
    as (scheme & labels & dom0 & Ho & _ & _ & Hdom0).
  pose proof (last_labels scheme labels) as Hlast. cbn zeta in Hlast.
  set (before := (scheme ++ chars "://" ++
         List.concat (map (fun l => l ++ chars ".")%list labels))%list) in *.
  assert (Hsplit : ((chars pre ++ [c]) ++ chars dom)%list
                   = (before ++ dom0)%list).
  { subst before. rewrite <- !app_assoc. rewrite <- Ho, chars_app.
    reflexivity. }
  apply app_inj_2 in Hsplit as [Hbefore _].
  - rewrite <- Hbefore, last_snoc in Hlast.
    destruct Hlast as [[= ->]|[= ->]]; done.
  - rewrite (eq_ci_length _ _ Hdom), (eq_ci_length _ _ Hdom0). done.
Qed.

(** ** Substring search *)

Lemma starts_with_spec sub s :
  starts_with sub s = true <-> exists post, s = (sub ++ post)%list.
Proof.
  revert s. induction sub as [|c sub IH]; intros s; cbn.
  - split; [by exists s|done].
  - destruct s as [|d s].
    + split; [done|]. by intros (post & ?).
    + rewrite andb_true_iff, Ascii.eqb_eq, IH. split.
      * intros [-> (post & ->)]. by exists post.
      * intros (post & [= -> ->]). split; [done|by exists post].
Qed.

Lemma includes_from_spec s sub :
  includes_from s sub = true <->
  exists pre post, s = (pre ++ sub ++ post)%list.
Proof.
  induction s as [|d s IH]; cbn [includes_from];
    rewrite orb_true_iff, starts_with_spec.
  - split.
    + intros [(post & H)|H]; [|done]. by exists [], post.
    + intros (pre & post & H). left.
      symmetry in H. apply app_eq_nil in H as [-> H].
      by exists post.
  - rewrite IH. split.
    + intros [(post & H)|(pre & post & ->)]; [by exists [], post|].
      by exists (d :: pre), post.
    + intros (pre & post & H). destruct pre as [|d' pre].
      * left. by exists post.
      * right. injection H as -> ->. by exists pre, post.
Qed.

Lemma includes_spec s sub :
  includes s sub = true <->
  exists pre post, chars s = (pre ++ chars sub ++ post)%list.
Proof. apply includes_from_spec. Qed.

Lemma search_spec r s :
  search r s = true <->
  exists pre mid post, chars s = (pre ++ mid ++ post)%list /\ Lang r mid.
Proof.
  unfold search. rewrite matches_Lang. split.
  - intros H. apply Lang_seq_inv in H as (pre & t & Heq & _ & H).
    apply Lang_seq_inv in H as (mid & post & -> & Hmid & _).
    by exists pre, mid, post.
  - intros (pre & mid & post & -> & Hmid).
    apply Lang_seq; [apply Lang_star_any|].
    apply Lang_seq; [done|apply Lang_star_any].
Qed.

(** ** The middleware *)

Lemma or_empty_str s : or_empty (JStr s) = s.
Proof. by destruct s. Qed.

Lemma or_empty_falsy v : truthy v = false -> or_empty v = "".
Proof. unfold or_empty, js_or. by intros ->. Qed.

Lemma nonempty_chars s : chars s <> [] -> nonempty s = true.
Proof. by destruct s. Qed.

(** X3: a request whose [User-Agent] contains [hubspot], in any letter case,
    is let through whatever its [Origin] and [Referer]. *)
Theorem X3_user_agent_opens_the_gate parseURL h ua pre mid post :
  h_user_agent h = JStr ua ->
  chars ua = (pre ++ mid ++ post)%list ->
  eq_ci mid (chars "hubspot") ->
  validateHubSpotRequest parseURL h = Next.
Proof.
  intros Hua Hsplit Hmid. unfold validateHubSpotRequest.
  rewrite Hua, or_empty_str.
  assert (Hne : nonempty ua = true).
  { apply nonempty_chars. rewrite Hsplit.
    apply eq_ci_length in Hmid. destruct mid; [discriminate|].
    by destruct pre. }
  assert (Hs : search (lit_ci "hubspot") ua = true).
  { apply search_spec. exists pre, mid, post. split; [done|].
    by apply Lang_lit_ci. }
  rewrite Hne, Hs. cbn [andb]. by rewrite orb_true_r.
Qed.

(** A request that carries neither [Origin] nor [Referer] is let
    through, whatever else it carries. *)
Lemma validateHubSpotRequest_no_headers parseURL h :
  truthy (h_origin h) = false ->
  truthy (h_referer h) = false ->
  validateHubSpotRequest parseURL h = Next.
Proof.
  intros Ho Hr. unfold validateHubSpotRequest.
  rewrite (or_empty_falsy _ Ho), (or_empty_falsy _ Hr). cbn.
  by destruct (_ && _).
Qed.

Lemma domainPattern_suffix domain o :
  test (domainPattern domain) o = true ->
  map toLowerAscii (chars domain) `suffix_of` map toLowerAscii (chars o).
Proof.
  intros H. apply domainPattern_shape in H
    as (scheme & labels & dom0 & -> & _ & _ & Hdom0).
  rewrite !app_assoc, map_app, <- Hdom0. by eexists.
Qed.

Lemma suffix_of_cons {A} (l l2 : list A) y :
  l `suffix_of` y :: l2 -> l = y :: l2 \/ l `suffix_of` l2.
Proof.
  intros [k Hk]. destruct k as [|x k]; [by left|].
  right. injection Hk as _ ->. by exists k.
Qed.

Lemma lookalike_other_domain d d' pre c dom :
  eq_ci (chars dom) (chars d) ->
  test (domainPattern d') (pre ++ String c dom) = true ->
  let Ld := map toLowerAscii (chars d) in
  let Ld' := map toLowerAscii (chars d') in
  Ld' = toLowerAscii c :: Ld \/ Ld' `suffix_of` Ld \/ Ld `suffix_of` Ld'.
Proof.
  intros Hdom Ht Ld Ld'. apply domainPattern_suffix in Ht. fold Ld' in Ht.
  assert (Hc : (toLowerAscii c :: Ld)
               `suffix_of` map toLowerAscii (chars (pre ++ String c dom))).
  { exists (map toLowerAscii (chars pre)).
    rewrite chars_app, map_app. subst Ld. by rewrite <- Hdom. }
  destruct (suffix_weak_total _ _ _ Ht Hc) as [H|H].
  - apply suffix_of_cons in H as [H|H]; auto.
  - right. right. by apply suffix_cons_l in H.
Qed.

Ltac refute_suffix H :=
  exfalso; refine (bool_decide_eq_false_1 _ _ H); vm_compute; reflexivity.

Lemma lookalike_no_pattern d pre c dom :
  In d HUBSPOT_DOMAINS ->
  c <> "/"%char -> c <> "."%char ->
  eq_ci (chars dom) (chars d) ->
  existsb (fun pattern => test pattern (pre ++ String c dom))
    HUBSPOT_DOMAIN_PATTERNS = false.
Proof.
  intros Hd Hslash Hdot Hdom.
  assert (Hsame : test (domainPattern d) (pre ++ String c dom) = false)
    by by apply domainPattern_rejects_lookalike.
  assert (Hother : forall d',
            test (domainPattern d') (pre ++ String c dom) = true ->
            let Ld := map toLowerAscii (chars d) in
            let Ld' := map toLowerAscii (chars d') in
            Ld' = toLowerAscii c :: Ld \/ Ld' `suffix_of` Ld \/
            Ld `suffix_of` Ld')
    by (intros d'; by apply lookalike_other_domain).
  unfold HUBSPOT_DOMAIN_PATTERNS. cbn [map existsb HUBSPOT_DOMAINS].
  destruct Hd as [<-|[<-|[<-|[<-|[]]]]]; rewrite Hsame;
    repeat match goal with
    | |- context [test (domainPattern ?d') ?o] =>
        let Ht := fresh "Ht" in
        destruct (test (domainPattern d') o) eqn:Ht;
        [exfalso; destruct (Hother d' Ht) as [H|[H|H]];
         [vm_compute in H; discriminate H
         |refute_suffix H|refute_suffix H]
        |]
    end; reflexivity.
Qed.

(** X2: a request from a look-alike origin (the domain glued to the end of
    another host name), without [Referer] and without [hubspot] in its
    [User-Agent], is answered 401. *)
Theorem X2_lookalike_origin_is_rejected parseURL h d pre c dom :
  In d HUBSPOT_DOMAINS ->
  c <> "/"%char -> c <> "."%char ->
  eq_ci (chars dom) (chars d) ->
  h_origin h = JStr (pre ++ String c dom) ->
  truthy (h_referer h) = false ->
  search (lit_ci "hubspot") (or_empty (h_user_agent h)) = false ->
  validateHubSpotRequest parseURL h = Reject 401 "Unauthorized".
Proof.
  intros Hd Hslash Hdot Hdom Ho Hr Hua. unfold validateHubSpotRequest.
  rewrite Ho, or_empty_str, (or_empty_falsy _ Hr), Hua.
  rewrite (lookalike_no_pattern d pre c dom Hd Hslash Hdot Hdom).
  rewrite andb_false_r. cbn [nonempty String.eqb negb orb].
  assert (Hne : nonempty (pre ++ String c dom) = true).
  { apply nonempty_chars. rewrite chars_app. by destruct (chars pre). }
  rewrite Hne. reflexivity.
Qed.

(** ** The CORS origin callback *)

Lemma includes_wider o lit pre post :
  includes o lit = true -> includes (pre ++ o ++ post) lit = true.
Proof.
  rewrite !includes_spec. intros (a & b & Ho).
  exists (chars pre ++ a)%list, (b ++ chars post)%list.
  rewrite !chars_app, Ho, <- !app_assoc. reflexivity.
Qed.

Lemma corsOrigin_str o :
  corsOrigin (JStr o) =
  negb (nonempty o) ||
  includes o "hubspot.com" || includes o "hubspotusercontent" ||
  includes o "hs-sites.com" || includes o "hubspotpreview" ||
  includes o "azurewebsites.net" || includes o "nutrient-hubspot-backend" ||
  includes o "localhost" || includes o "127.0.0.1".
Proof.
  unfold corsOrigin. rewrite or_empty_str. unfold truthy, nonempty.
  destruct (String.eqb o ""); cbn [negb orb]; [reflexivity|].
  repeat (match goal with
          | |- context [includes o ?lit] => destruct (includes o lit)
          end; cbn [orb]; try reflexivity).
Qed.

(** X4: the callback looks for its literals anywhere in the origin, so
    whatever is written around an admitted origin is admitted too. *)
Theorem X4_cors_admits_any_extension o pre post :
  o <> "" ->
  corsOrigin (JStr o) = true ->
  corsOrigin (JStr (pre ++ o ++ post)) = true.
Proof.
  intros Hne. rewrite !corsOrigin_str.
  assert (Hn : nonempty o = true) by by destruct o.
  rewrite Hn. cbn [negb orb]. intros H.
  repeat (apply orb_true_iff in H as [H|H]);
    rewrite (includes_wider _ _ pre post H), ?orb_true_r; reflexivity.
Qed.

Lemma lower_part (a b : list ascii) :
  map toLowerAscii (a ++ b) = (a ++ b)%list ->
  map toLowerAscii b = b.
Proof.
  rewrite map_app. intros H. apply app_inj_2 in H as [_ H]; [done|].
  by rewrite length_map.
Qed.

(** X5: an origin written in lower case that [validateHubSpotRequest]'s
    patterns accept is admitted by the CORS callback as well. *)
Theorem X5_cors_admits_pattern_origins d o :
  In d HUBSPOT_DOMAINS ->
  map toLowerAscii (chars o) = chars o ->
  test (domainPattern d) o = true ->
  corsOrigin (JStr o) = true.
Proof.
  intros Hd Hlow Ht.
  apply domainPattern_shape in Ht
    as (scheme & labels & dom0 & Ho & _ & _ & Hdom0).
  rewrite Ho, !app_assoc in Hlow. apply lower_part in Hlow.
  unfold eq_ci in Hdom0. rewrite Hlow in Hdom0.
  rewrite corsOrigin_str.
  assert (Hinc : forall lit rest,
            map toLowerAscii (chars d) = (chars lit ++ rest)%list ->
            includes o lit = true).
  { intros lit rest Hd'. apply includes_spec.
    exists (scheme ++ chars "://" ++
            List.concat (map (fun l => l ++ chars ".")%list labels))%list,
           rest.
    rewrite Ho, Hdom0, Hd', <- !app_assoc. reflexivity. }
  destruct Hd as [<-|[<-|[<-|[<-|[]]]]].
  - rewrite (Hinc "hubspot.com" []) by reflexivity.
    by rewrite ?orb_true_r.
  - rewrite (Hinc "hubspotusercontent" (chars ".com")) by reflexivity.
    by rewrite ?orb_true_r.
  - rewrite (Hinc "hs-sites.com" []) by reflexivity.
    by rewrite ?orb_true_r.
  - rewrite (Hinc "hubspotpreview" (chars ".com")) by reflexivity.
    by rewrite ?orb_true_r.
Qed.

(** ** What the gates let through *)

Lemma validate_Some_inv token now w w' td :
  validateViewerToken token now w = Normal (w', Some td) ->
  w' = w /\ viewerTokens w !! token = Some td /\ now <= expiresAt td.
Proof.
  unfold validateViewerToken.
  destruct (viewerTokens w !! token) as [td0|] eqn:Hget; cbn; [|done].
  destruct (Z.gtb_spec now (expiresAt td0)); [done|].
  intros [= <- <-]. auto.
Qed.

Lemma validate_None_inv token now w w' :
  validateViewerToken token now w = Normal (w', None) ->
  (viewerTokens w !! token = None /\ w' = w) \/
  (exists td, viewerTokens w !! token = Some td /\ expiresAt td < now /\
              w' = timerCallback token w).
Proof.
  unfold validateViewerToken.
  destruct (viewerTokens w !! token) as [td0|] eqn:Hget; cbn.
  - destruct (Z.gtb_spec now (expiresAt td0)); [|done].
    intros [= <-]. right. exists td0. split; [done|]. split; [lia|done].
  - intros [= <-]. by left.
Qed.

Lemma validate_total token now w :
  exists w' r, validateViewerToken token now w = Normal (w', r).
Proof.
  unfold validateViewerToken.
  destruct (viewerTokens w !! token) as [td|]; cbn; [|by eexists _, _].
  destruct (now >? expiresAt td); by eexists _, _.
Qed.

Lemma token_rejected_false_inv r fid :
  token_rejected r fid = Normal false ->
  exists td, r = Some td /\ fileId td = JStr fid.
Proof.
  unfold token_rejected. destruct r as [td|]; cbn; [|done].
  unfold strict_ne. intros [= H]. apply negb_false_iff in H.
  apply bool_decide_eq_true in H. by exists td.
Qed.

Lemma token_rejected_total r fid : exists b, token_rejected r fid = Normal b.
Proof. unfold token_rejected. destruct r; cbn; by eexists. Qed.

(** X7: the two read handlers go on to HubSpot only for a request that
    presents a non-empty token whose record is in the store, is bound to
    the file id of the path and has not expired; and they do so without
    changing the state. *)
Theorem X7_read_gate_sound fid qname token now w w' out :
  (get_api_file fid token now w = Normal (w', out) \/
   get_viewer fid qname token now w = Normal (w', out)) ->
  (forall status error, out <> ReplyError status error) ->
  w' = w /\ truthy token = true /\
  exists td, viewerTokens w !! token = Some td /\
             fileId td = JStr fid /\ now <= expiresAt td.
Proof.
  intros Hrun Hout.
  assert (Hcore : truthy token = true /\
            exists r, validateViewerToken token now w = Normal (w', r) /\
                      token_rejected r fid = Normal false).
  { unfold get_api_file, get_viewer in Hrun.
    destruct (truthy token); cbn [negb] in Hrun.
    - split; [done|].
      destruct (validate_total token now w) as (w1 & r & Hv).
      rewrite Hv in Hrun. cbn in Hrun.
      destruct (token_rejected_total r fid) as (b & Hb).
      rewrite Hb in Hrun. cbn in Hrun. exists r.
      destruct b.
      + destruct Hrun as [[= _ <-]|[= _ <-]]; by edestruct Hout.
      + destruct Hrun as [[= <- _]|[= <- _]]; done.
    - destruct Hrun as [[= _ <-]|[= _ <-]]; by edestruct Hout. }
  destruct Hcore as (Ht & r & Hv & Hacc).
  apply token_rejected_false_inv in Hacc as (td & -> & Hfid).
  apply validate_Some_inv in Hv as (-> & Hget & Hnow).
  split; [done|]. split; [done|]. by exists td.
Qed.

(** X8: the upload handler goes on to HubSpot only for a request that
    presents a non-empty token whose record is in the store and has not
    expired, and that carries a parsed body and a file with its buffer;
    the state is unchanged, and the call made is the replacement of the
    file named in the body, or an upload when the body names none. *)
Theorem X8_upload_gate_sound req now w w' out :
  post_hubspot_upload req now w = (w', out) ->
  (forall status error, out <> ReplyError status error) ->
  w' = w /\ truthy (upload_token req) = true /\
  (exists td, viewerTokens w !! upload_token req = Some td /\
              now <= expiresAt td) /\
  exists body file bytes,
    upload_body req = Some body /\
    upload_file req = Some file /\ buffer file = Some bytes /\
    out = if truthy (up_fileId body)
          then ReplaceFile (up_fileId body)
                 (js_or (up_filename body) (originalname file))
          else UploadNew (js_or (up_filename body) (originalname file)).
Proof.
  unfold post_hubspot_upload, upload_try. intros Hrun Hout.
  destruct (truthy (upload_token req)) eqn:Ht; cbn [negb] in Hrun;
    [|injection Hrun as _ <-; by edestruct Hout].
  destruct (validate_total (upload_token req) now w) as (w1 & r & Hv).
  rewrite Hv in Hrun. cbn in Hrun.
  destruct r as [td|]; cbn in Hrun;
    [|injection Hrun as _ <-; by edestruct Hout].
  apply validate_Some_inv in Hv as (-> & Hget & Hnow).
  destruct (upload_body req) as [body|]; cbn in Hrun;
    [|injection Hrun as _ <-; by edestruct Hout].
  destruct (upload_file req) as [file|];
    [|injection Hrun as _ <-; by edestruct Hout].
  destruct (buffer file) as [bytes|] eqn:Hbuf;
    [|injection Hrun as _ <-; by edestruct Hout].
  split; [by destruct (truthy (up_fileId body)); injection Hrun|].
  split; [done|]. split; [by exists td|].
  exists body, file, bytes. split; [done|]. split; [done|]. split; [done|].
  by destruct (truthy (up_fileId body)); injection Hrun.
Qed.




(** X10: a token presented after its expiry is answered 401 by each handler,
    its record is deleted on the way, and from then on the token is
    answered 401 at every clock reading, earlier ones included. *)
Theorem X10_expired_token_is_dead fid qname req token now w td :
  truthy token = true ->
  upload_token req = token ->
  viewerTokens w !! token = Some td ->
  expiresAt td < now ->
  let w1 := timerCallback token w in
  get_api_file fid token now w
    = Normal (w1, ReplyError 401 "Invalid or expired token") /\
  get_viewer fid qname token now w
    = Normal (w1, ReplyError 401 "Invalid or expired token. Tokens are valid for 15 minutes.") /\
  post_hubspot_upload req now w
    = (w1, ReplyError 401 "Invalid or expired token") /\
  forall now',
    get_api_file fid token now' w1
      = Normal (w1, ReplyError 401 "Invalid or expired token") /\
    get_viewer fid qname token now' w1
      = Normal (w1, ReplyError 401 "Invalid or expired token. Tokens are valid for 15 minutes.") /\
    post_hubspot_upload req now' w1
      = (w1, ReplyError 401 "Invalid or expired token").
Proof.
  intros Ht Hreq Hget Hlate w1.
  assert (Hv : validateViewerToken token now w = Normal (w1, None))
    by by apply (validate_late _ _ _ td).
  assert (Hv1 : forall now',
            validateViewerToken token now' w1 = Normal (w1, None)).
  { intros now'. apply validate_absent. apply lookup_delete_eq. }
  assert (Hall : forall t w0,
            validateViewerToken token t w0 = Normal (w1, None) ->
            get_api_file fid token t w0
              = Normal (w1, ReplyError 401 "Invalid or expired token") /\
            get_viewer fid qname token t w0
              = Normal (w1, ReplyError 401 "Invalid or expired token. Tokens are valid for 15 minutes.") /\
            post_hubspot_upload req t w0
              = (w1, ReplyError 401 "Invalid or expired token")).
  { intros t w0 H.
    unfold get_api_file, get_viewer, post_hubspot_upload, upload_try.
    rewrite Hreq, Ht, H. auto. }
  destruct (Hall now w Hv) as (H1 & H2 & H3).
  split; [done|]. split; [done|]. split; [done|].
  intros now'. by apply Hall.
Qed.

(** ** Every record has its deletion scheduled *)

Lemma elem_of_delete_other {A} (l : list A) i t t' :
  l !! i = Some t -> t' ∈ l -> t' <> t -> t' ∈ delete i l.
Proof.
  intros Hi Hin Hne. rewrite delete_take_drop.
  rewrite <- (take_drop_middle l i t Hi) in Hin.
  apply elem_of_app in Hin as [Hin|Hin]; [apply elem_of_app; by left|].
  apply elem_of_cons in Hin as [->|Hin]; [done|].
  apply elem_of_app. by right.
Qed.

Lemma cleanup_pending_step w w' :
  step w w' -> cleanup_pending w -> cleanup_pending w'.
Proof.
  intros Hstep Hinv.
  destruct Hstep as [fid name rnd now w _|token now w w' r Hv|i w w' Hf].
  - intros k td H. cbn in H |- *.
    destruct (decide (JStr (toHex rnd) = k)) as [<-|Hne].
    + eexists. split; [apply elem_of_app; right; by apply list_elem_of_singleton|].
      done.
    + rewrite lookup_insert_ne in H by done.
      destruct (Hinv k td H) as (t & Hin & Htok & Hdelay).
      exists t. split; [apply elem_of_app; by left|done].
  - intros k td H.
    destruct (validate_store _ _ _ _ _ Hv) as [Ht [Hs|Hs]];
      rewrite Hs in H; rewrite Ht.
    + by apply (Hinv k td).
    + apply lookup_delete_Some in H as [_ H]. by apply (Hinv k td).
  - unfold fireTimer in Hf. destruct (timers w !! i) as [t|] eqn:Hi; [|done].
    injection Hf as <-. intros k td H. cbn in H |- *.
    apply lookup_delete_Some in H as [Hk H].
    destruct (Hinv k td H) as (t' & Hin & Htok & Hdelay).
    exists t'. split; [|done].
    apply (elem_of_delete_other _ _ t); [done|done|]. congruence.
Qed.

(** X11: in every state the process can reach, each record of the store has
    a pending timer that will delete it, scheduled 15 minutes after its
    mint: no record is left without its cleanup. *)
Theorem X11_every_record_has_its_timer w :
  reachable w ->
  forall k td, viewerTokens w !! k = Some td ->
    exists t, t ∈ timers w /\ timer_token t = k /\
              timer_delay t = 15 * 60 * 1000.
Proof.
  unfold reachable. revert w.
  apply (rtc_ind_r (fun w => cleanup_pending w) initial).
  - intros k td H. cbn in H. by rewrite lookup_empty in H.
  - intros w w' _ Hstep Hinv. by apply (cleanup_pending_step w).
Qed.

(** ** The token string *)

Lemma byteToHex_digits b :
  bool_decide (hexDigit (Byte.to_N b / 16) ∈ hexAlphabet) &&
  bool_decide (hexDigit (Byte.to_N b mod 16) ∈ hexAlphabet) = true.
Proof. destruct b; reflexivity. Qed.

Lemma toHex_digits buf :
  Forall (fun c => c ∈ hexAlphabet) (chars (toHex buf)).
Proof.
  induction buf as [|b buf IH]; [constructor|].
  pose proof (byteToHex_digits b) as Hb.
  apply andb_true_iff in Hb as [H1 H2].
  apply bool_decide_eq_true in H1, H2.
  cbn [toHex byteToHex]. unfold chars. cbn [list_ascii_of_string].
  constructor; [exact H1|]. constructor; [exact H2|exact IH].
Qed.

(** X12: the token [generateViewerToken] returns is 64 characters long, each
    a lower-case hexadecimal digit, and reading it back as hexadecimal
    gives the 32 random bytes it was made from. *)
Theorem X12_token_is_64_hex_digits fid name rnd now w :
  List.length rnd = 32%nat ->
  let T := (generateViewerToken fid name rnd now w).2 in
  String.length T = 64%nat /\
  Forall (fun c => c ∈ hexAlphabet) (chars T) /\
  fromHex 32 T = Some rnd.
Proof.
  intros Hlen T. subst T. cbn [generateViewerToken snd].
  split; [rewrite toHex_length; lia|]. split; [apply toHex_digits|].
  rewrite <- Hlen. apply fromHex_toHex.
Qed.

(** ** The mint handler *)

Lemma post_generate_served fid name rnd now w :
  truthy fid = true ->
  post_generate_viewer_token (Some (mkMintBody fid name)) rnd now w
  = ((generateViewerToken fid (js_or name (JStr "document")) rnd now w).1,
     ReplyToken (toHex rnd) 900).
Proof.
  intros Ht. unfold post_generate_viewer_token, generate_try. cbn.
  by rewrite Ht.
Qed.

(** X13: a served mint request adds one record and one timer and touches no
    other record; the lifetime it announces, [expiresIn] seconds, is the
    lifetime of the record and the delay of the timer. *)
Theorem X13_mint_adds_one_record_for_900s
    body_fileId body_filename rnd now w :
  truthy body_fileId = true ->
  exists w' td,
    post_generate_viewer_token
      (Some (mkMintBody body_fileId body_filename)) rnd now w
    = (w', ReplyToken (toHex rnd) 900) /\
    viewerTokens w' !! JStr (toHex rnd) = Some td /\
    fileId td = body_fileId /\
    expiresAt td - now = 900 * 1000 /\
    timers w' = (timers w ++ [mkTimer (900 * 1000) (JStr (toHex rnd))])%list /\
    forall k, k <> JStr (toHex rnd) ->
      viewerTokens w' !! k = viewerTokens w !! k.
Proof.
  intros Ht. rewrite (post_generate_served _ _ _ _ _ Ht).
  eexists _, _. split; [reflexivity|]. cbn.
  split; [apply lookup_insert_eq|]. split; [done|]. split; [cbn; lia|].
  split; [done|]. intros k Hk. by rewrite lookup_insert_ne.
Qed.

(** X6: a client that sends neither [Origin] nor [Referer] gets through the
    middleware of the mint route: for any file id it names it receives a
    token that the file handler then accepts for that file. A request the
    middleware refuses changes nothing. *)
Theorem X6_headerless_request_mints
    parseURL h fid body_filename rnd now now' w :
  truthy (h_origin h) = false ->
  truthy (h_referer h) = false ->
  fid <> "" ->
  List.length rnd = 32%nat ->
  now' <= now + 15 * 60 * 1000 ->
  exists w',
    route_generate_viewer_token parseURL h
      (Some (mkMintBody (JStr fid) body_filename)) rnd now w
    = (w', ReplyToken (toHex rnd) 900) /\
    get_api_file fid (JStr (toHex rnd)) now' w'
    = Normal (w', FetchFile fid).
Proof.
  intros Ho Hr Hfid Hlen Hnow. unfold route_generate_viewer_token.
  rewrite (validateHubSpotRequest_no_headers parseURL h Ho Hr).
  assert (Ht : truthy (JStr fid) = true) by by destruct fid.
  rewrite (post_generate_served _ _ _ _ _ Ht).
  eexists. split; [reflexivity|].
  set (w' := (generateViewerToken (JStr fid)
                (js_or body_filename (JStr "document")) rnd now w).1).
  assert (Hv : validateViewerToken (JStr (toHex rnd)) now' w'
               = Normal (w', Some (mkTokenData (JStr fid)
                   (js_or body_filename (JStr "document"))
                   (now + 900000) false))).
  { apply validate_live; [apply generate_lookup|cbn; lia]. }
  rewrite (get_api_file_after _ _ _ _ _ (toHex_truthy _ Hlen) Hv).
  unfold token_rejected. cbn. by rewrite strict_ne_same.
Qed.

(** ** The CRM card *)


(** One round of [mintActions], by the outcome of the encoder. *)
Lemma mintActions_cons enc file files i draw clock w :
  mintActions enc (file :: files) i draw clock w
  = let w1 := (generateViewerToken (file_id file) (file_name file)
                 (draw i) (clock i) w).1 in
    match enc (to_string (file_name file)) with
    | Throw message => (w1, Throw message)
    | Normal encoded =>
        ((mintActions enc files (S i) draw clock w1).1,
         actions ← (mintActions enc files (S i) draw clock w1).2;
         Normal (mkCardAction "IFRAME" 1200 800
                   (cardUri file encoded (toHex (draw i)))
                   ("View " ++ to_string (file_name file)) :: actions))
    end.
Proof.
  cbn [mintActions generateViewerToken fst]. cbn zeta.
  destruct (enc (to_string (file_name file))); [|done].
  by destruct (mintActions enc files (S i) draw clock _).
Qed.

(** A [map] that came to its end: one action and one mint per file, the
    [j]-th action carrying the [j]-th token. *)
Lemma mintActions_done enc files i draw clock w actions :
  (mintActions enc files i draw clock w).2 = Normal actions ->
  List.length actions = List.length files /\
  List.length (timers (mintActions enc files i draw clock w).1)
  = (List.length (timers w) + List.length files)%nat /\
  forall j file, files !! j = Some file ->
    exists encoded,
      enc (to_string (file_name file)) = Normal encoded /\
      actions !! j
      = Some (mkCardAction "IFRAME" 1200 800
                (cardUri file encoded (toHex (draw (i + j)%nat)))
                ("View " ++ to_string (file_name file))).
Proof.
  revert i w actions.
  induction files as [|file files IH]; intros i w actions.
  - cbn. intros [= <-]. split; [done|]. split; [lia|]. intros j f [=].
  - rewrite mintActions_cons. cbn zeta.
    destruct (enc (to_string (file_name file))) as [encoded|message] eqn:He;
      [|done].
    cbn [fst snd].
    destruct ((mintActions enc files (S i) draw clock _).2)
      as [rest|message] eqn:Hrest; [|done].
    intros Hdone. cbn in Hdone. injection Hdone as <-.
    destruct (IH _ _ _ Hrest) as (Hlen & Htimers & Hacts).
    split; [cbn; lia|].
    split; [rewrite Htimers; cbn; rewrite length_app; cbn; lia|].
    intros [|j] f Hj.
    + injection Hj as <-. exists encoded. rewrite Nat.add_0_r. done.
    + cbn in Hj. destruct (Hacts j f Hj) as (encoded' & He' & Hact).
      exists encoded'. split; [done|].
      rewrite Nat.add_succ_r. exact Hact.
Qed.



Lemma mintActions_other enc files i draw clock w k :
  (forall j, (j < List.length files)%nat -> k <> JStr (toHex (draw (i + j)%nat))) ->
  viewerTokens (mintActions enc files i draw clock w).1 !! k
  = viewerTokens w !! k.
Proof.
  revert i w. induction files as [|file files IH]; intros i w Hk; [done|].
  rewrite mintActions_cons. cbn zeta.
  assert (H0 : k <> JStr (toHex (draw i))).
  { specialize (Hk 0%nat). rewrite Nat.add_0_r in Hk. apply Hk. cbn. lia. }
  destruct (enc (to_string (file_name file))); cbn [fst].
  - rewrite IH.
    + cbn. by rewrite lookup_insert_ne.
    + intros j Hj. specialize (Hk (S j)). rewrite Nat.add_succ_r in Hk.
      apply Hk. cbn. lia.
  - cbn. by rewrite lookup_insert_ne.
Qed.

Lemma mintActions_lookup enc files i draw clock w actions j file :
  (forall j1 j2, (j1 < List.length files)%nat -> (j2 < List.length files)%nat ->
     j1 <> j2 -> draw (i + j1)%nat <> draw (i + j2)%nat) ->
  (mintActions enc files i draw clock w).2 = Normal actions ->
  files !! j = Some file ->
  viewerTokens (mintActions enc files i draw clock w).1
    !! JStr (toHex (draw (i + j)%nat))
  = Some (mkTokenData (file_id file) (file_name file)
            (clock (i + j)%nat + 900000) false).
Proof.
  revert i w actions j.
  induction files as [|f files IH]; intros i w actions j Hdist Hdone Hj;
    [done|].
  rewrite mintActions_cons in Hdone |- *. cbn zeta in Hdone |- *.
  destruct (enc (to_string (file_name f))) as [encoded|message]; [|done].
  cbn [fst snd] in Hdone |- *.
  destruct ((mintActions enc files (S i) draw clock _).2)
    as [rest|message] eqn:Hrest; [|done].
  destruct j as [|j].
  - injection Hj as ->. rewrite Nat.add_0_r.
    rewrite mintActions_other.
    + cbn. apply lookup_insert_eq.
    + intros j Hj [= Heq]. apply toHex_inj in Heq.
      apply (Hdist 0%nat (S j)); [cbn; lia|cbn; lia|done|].
      rewrite Nat.add_0_r, Heq. f_equal. lia.
  - cbn in Hj. replace (i + S j)%nat with (S i + j)%nat by lia.
    apply (IH _ _ rest); [|done|done].
    intros j1 j2 H1 H2 Hne.
    replace (S i + j1)%nat with (i + S j1)%nat by lia.
    replace (S i + j2)%nat with (i + S j2)%nat by lia.
    apply Hdist; cbn; lia.
Qed.

(** The card handler, once the request has a contact id and the search
    has answered. *)
Lemma post_crm_card_searched parseInt enc b results draw clock w :
  truthy (js_or (card_hs_object_id b) (card_body_objectId b)) = true ->
  post_crm_card parseInt enc (Some b) (Normal results) draw clock w
  = let files := contactFiles (default [] results) in
    let n := List.length files in
    let minted := mintActions enc files 0 draw clock w in
    (minted.1,
     match minted.2 with
     | Normal actions =>
         mkCard
           (parseInt (js_or (card_hs_object_id b) (card_body_objectId b)))
           (pretty n ++ " Document" ++
            (if bool_decide (n = 1%nat) then "" else "s"))
           (if bool_decide (0 < n)%nat then map fileProperty files
            else [mkCardProperty (JStr "No documents") "STRING"
                    (JStr "No PDF files found")])
           (Some actions)
     | Throw message => errorCard message
     end).
Proof.
  intros Ht. unfold post_crm_card. cbn [destructure]. rewrite Ht.
  cbn [negb]. cbn zeta.
  by destruct (mintActions enc (contactFiles (default [] results)) 0
                 draw clock w) as [w' [actions|message]].
Qed.


(** X15: when the draws of one card differ from each other and the card
    has its actions (the encoder refused no file name), every action
    carries, at the end of its link, a token whose record is bound to
    the id of the file the action names; the viewer page accepts that
    token for that file until the record expires. *)
Theorem X15_card_links_open_their_files
    parseInt enc hs_object_id body_objectId results draw clock w :
  truthy (js_or hs_object_id body_objectId) = true ->
  let files := contactFiles (default [] results) in
  (forall j, (j < List.length files)%nat -> List.length (draw j) = 32%nat) ->
  (forall j1 j2, (j1 < List.length files)%nat ->
     (j2 < List.length files)%nat -> j1 <> j2 -> draw j1 <> draw j2) ->
  let r := post_crm_card parseInt enc
             (Some (mkCardBody hs_object_id body_objectId))
             (Normal results) draw clock w in
  forall actions,
    card_actions r.2 = Some actions ->
    forall j file fid,
      files !! j = Some file ->
      file_id file = JStr fid ->
      (exists action encoded,
         actions !! j = Some action /\
         enc (to_string (file_name file)) = Normal encoded /\
         action_uri action
         = "https://nutrient-hubspot-backend.azurewebsites.net/viewer/" ++
           fid ++ "?filename=" ++ encoded ++
           "&token=" ++ toHex (draw j)) /\
      forall qname now',
        now' <= clock j + 15 * 60 * 1000 ->
        get_viewer fid qname (JStr (toHex (draw j))) now' r.1
        = Normal (r.1, RenderViewer fid (js_or qname (JStr "document"))
                         (JStr (toHex (draw j)))).
Proof.
  intros Hc files Hlen Hdist r. subst r.
  rewrite (post_crm_card_searched parseInt enc
             (mkCardBody hs_object_id body_objectId) results draw clock w Hc).
  cbn zeta. fold files. cbn [fst snd].
  destruct ((mintActions enc files 0 draw clock w).2)
    as [acts|message] eqn:Hminted; [|done].
  cbn [card_actions]. intros actions [= <-] j file fid Hj Hfid.
  destruct (mintActions_done _ _ _ _ _ _ _ Hminted) as (_ & _ & Hacts).
  destruct (Hacts j file Hj) as (encoded & Henc & Hact).
  pose proof (mintActions_lookup enc files 0 draw clock w acts j file
                Hdist Hminted Hj) as Hget.
  cbn [Nat.add] in Hact, Hget.
  split.
  - eexists _, encoded. split; [exact Hact|]. split; [done|].
    cbn. unfold cardUri. by rewrite Hfid.
  - intros qname now' Hnow.
    assert (Hj' : (j < List.length files)%nat)
      by (apply lookup_lt_is_Some; by eexists).
    set (w' := (mintActions enc files 0 draw clock w).1) in *.
    assert (Hv : validateViewerToken (JStr (toHex (draw j))) now' w'
                 = Normal (w', Some (mkTokenData (file_id file)
                     (file_name file) (clock j + 900000) false))).
    { apply validate_live; [exact Hget|cbn; lia]. }
    rewrite (get_viewer_after _ _ _ _ _ _
               (toHex_truthy _ (Hlen j Hj')) Hv).
    unfold token_rejected. cbn. rewrite Hfid. by rewrite strict_ne_same.
Qed.

(** X16: the card does not look at the contact: for any two contact ids the
    same search result gives the same title, properties and actions and
    the same state afterwards. *)
Theorem X16_card_ignores_the_contact
    parseInt enc hs1 ob1 hs2 ob2 search draw clock w :
  truthy (js_or hs1 ob1) = true ->
  truthy (js_or hs2 ob2) = true ->
  let r1 := post_crm_card parseInt enc (Some (mkCardBody hs1 ob1))
              search draw clock w in
  let r2 := post_crm_card parseInt enc (Some (mkCardBody hs2 ob2))
              search draw clock w in
  r1.1 = r2.1 /\
  card_title r1.2 = card_title r2.2 /\
  card_properties r1.2 = card_properties r2.2 /\
  card_actions r1.2 = card_actions r2.2.
Proof.
  intros H1 H2. cbn zeta.
  destruct search as [results|message].
  - rewrite (post_crm_card_searched parseInt enc (mkCardBody hs1 ob1)
               results draw clock w H1).
    rewrite (post_crm_card_searched parseInt enc (mkCardBody hs2 ob2)
               results draw clock w H2).
    cbn zeta. cbn [fst snd].
    by destruct ((mintActions enc (contactFiles (default [] results)) 0
                    draw clock w).2).
  - unfold post_crm_card. cbn [destructure card_hs_object_id
      card_body_objectId]. by rewrite H1, H2.
Qed.

(** ** The content type *)

Lemma toLowerAscii_twice c : toLowerAscii (toLowerAscii c) = toLowerAscii c.
Proof. destruct c as [[] [] [] [] [] [] [] []]; reflexivity. Qed.

Lemma toLowerCase_twice s : toLowerCase (toLowerCase s) = toLowerCase s.
Proof.
  unfold toLowerCase, chars.
  rewrite list_ascii_of_string_of_list_ascii, map_map.
  f_equal. apply map_ext. intros c. apply toLowerAscii_twice.
Qed.

Lemma assoc_In key table v :
  assoc key table = Some v -> In v (map snd table).
Proof.
  induction table as [|[k v'] table IH]; cbn; [done|].
  destruct (String.eqb key k); [intros [= ->]; by left|].
  intros H. right. by apply IH.
Qed.

Lemma inherited_lower_case x :
  x ∈ objectPrototypeKeys -> toLowerCase x = x ->
  x = "constructor" \/ x = "__proto__".
Proof.
  intros Hin Hfix. unfold objectPrototypeKeys in Hin.
  repeat (apply elem_of_cons in Hin as [->|Hin]);
    try (vm_compute in Hfix; discriminate Hfix); auto.
  by apply elem_of_nil in Hin.
Qed.

(** X17: whatever [extension] the file object carries, [Content-Type] is one
    of the listed MIME types or [application/octet-stream], except for
    the two extensions that name a property every object inherits:
    there the header is given that property instead of a MIME type.
    A missing or empty extension gives [application/octet-stream], and
    the letter case of the extension does not matter. *)
Theorem X17_content_type_of_extension ext :
  let ct := mimeTypeOf (extensionOf ext) in
  ((exists mime, ct = MimeString mime /\
      (mime = "application/octet-stream" \/ In mime (map snd mimeTypes))) \/
   (ct = InheritedProperty (extensionOf ext) /\
    (extensionOf ext = "constructor" \/ extensionOf ext = "__proto__"))) /\
  (truthy ext = false -> ct = MimeString "application/octet-stream") /\
  (forall e, ext = JStr e ->
     ct = mimeTypeOf (extensionOf (JStr (toLowerCase e)))).
Proof.
  cbn zeta. split; [|split].
  - assert (Hfix : extensionOf ext = "bin" \/
                   toLowerCase (extensionOf ext) = extensionOf ext).
    { destruct ext as [| |e]; cbn; auto.
      destruct (nonempty (toLowerCase e)); auto.
      right. apply toLowerCase_twice. }
    unfold mimeTypeOf.
    destruct (assoc (extensionOf ext) mimeTypes) as [mime|] eqn:Hassoc.
    + left. exists mime. split; [done|]. right. by apply (assoc_In _ _ _ Hassoc).
    + destruct (decide (extensionOf ext ∈ objectPrototypeKeys)) as [Hin|Hout].
      * rewrite bool_decide_eq_true_2 by done. right. split; [done|].
        destruct Hfix as [Hbin|Hfix].
        -- rewrite Hbin in Hin. exfalso.
           refine (bool_decide_eq_false_1 _ _ Hin). reflexivity.
        -- by apply inherited_lower_case.
      * rewrite bool_decide_eq_false_2 by done. left. eexists. eauto.
  - destruct ext as [| |e]; cbn; [done|done|].
    destruct e; [|done]. done.
  - intros e ->. cbn [extensionOf]. by rewrite toLowerCase_twice.
Qed.

(** ** The attachment list *)

Section Listing.
Context (trim : string -> string) (split : string -> list string).
Context (draw : nat -> list byte) (clock : nat -> Z) (w0 : World).

(** The loops only ever add to the count of mints. *)
Lemma listFile_minted fetched st :
  (ls_minted st <= ls_minted (listFile fetched draw clock st))%nat.
Proof. destruct fetched; cbn; lia. Qed.

Lemma listFiles_minted fetchFile fileIds k st :
  (ls_minted st
   <= ls_minted (listFiles trim fetchFile fileIds k draw clock st))%nat.
Proof.
  revert k st. induction fileIds as [|fileId fileIds IH]; intros k st;
    [done|].
  cbn [listFiles]. etrans; [|apply IH]. apply listFile_minted.
Qed.

Lemma listNote_minted details fetchFile st :
  (ls_minted st
   <= ls_minted (listNote trim split details fetchFile draw clock st))%nat.
Proof.
  unfold listNote. destruct details as [ids|e]; [|done].
  destruct (truthy ids); [|done]. apply listFiles_minted.
Qed.

Lemma listNotes_minted noteDetails fetchFile notes n st :
  (ls_minted st
   <= ls_minted (listNotes trim split noteDetails fetchFile notes n
                   draw clock st))%nat.
Proof.
  revert n st. induction notes as [|note notes IH]; intros n st; [done|].
  cbn [listNotes]. etrans; [|apply IH]. apply listNote_minted.
Qed.

Lemma listFile_counts fetched st :
  listing_counts w0 st ->
  listing_counts w0 (listFile fetched draw clock st).
Proof.
  intros [Hm Ht]. destruct fetched as [fileData|e]; [|done].
  unfold listFile, generateViewerToken, listing_counts.
  cbn [ls_world ls_minted ls_files viewerTokens timers].
  rewrite !length_app. cbn. lia.
Qed.

Lemma listFiles_counts fetchFile fileIds k st :
  listing_counts w0 st ->
  listing_counts w0 (listFiles trim fetchFile fileIds k draw clock st).
Proof.
  revert k st. induction fileIds as [|fileId fileIds IH]; intros k st H;
    [done|].
  cbn [listFiles]. apply IH. by apply listFile_counts.
Qed.

Lemma listNotes_counts noteDetails fetchFile notes n st :
  listing_counts w0 st ->
  listing_counts w0
    (listNotes trim split noteDetails fetchFile notes n draw clock st).
Proof.
  revert n st. induction notes as [|note notes IH]; intros n st H;
    [done|].
  cbn [listNotes]. apply IH. unfold listNote.
  destruct (noteDetails n note) as [ids|e]; [|done].
  destruct (truthy ids); [|done]. by apply listFiles_counts.
Qed.

(** [bound] is any number the count of mints stays below. *)
Context (bound : nat).
Hypothesis draw_inj :
  forall j1 j2, (j1 < bound)%nat -> (j2 < bound)%nat ->
    draw j1 = draw j2 -> j1 = j2.

Lemma listFile_ok fetched st :
  (ls_minted (listFile fetched draw clock st) <= bound)%nat ->
  listing_ok draw clock w0 st ->
  listing_ok draw clock w0 (listFile fetched draw clock st).
Proof.
  intros Hb [Hc Hfiles]. split; [by apply listFile_counts|].
  destruct Hc as [Hm _]. destruct fetched as [fileData|e]; [|done].
  unfold listFile, generateViewerToken in *.
  cbn [ls_world ls_minted ls_files viewerTokens timers] in *.
  intros j lf Hj.
  destruct (decide (j = List.length (ls_files st))) as [->|Hne].
  - rewrite list_lookup_middle in Hj by done. injection Hj as <-.
    cbn [listed_viewerToken listed_id listed_name]. rewrite Hm.
    split; [done|]. apply lookup_insert_eq.
  - assert (Hlt : (j < List.length (ls_files st))%nat).
    { apply lookup_lt_Some in Hj. rewrite length_app in Hj.
      cbn in Hj. lia. }
    rewrite lookup_app_l in Hj by done.
    destruct (Hfiles j lf Hj) as [Htok Hget]. split; [done|].
    rewrite lookup_insert_ne; [done|].
    intros [= Heq]. apply toHex_inj, draw_inj in Heq; lia.
Qed.

Lemma listFiles_ok fetchFile fileIds k st :
  (ls_minted (listFiles trim fetchFile fileIds k draw clock st)
   <= bound)%nat ->
  listing_ok draw clock w0 st ->
  listing_ok draw clock w0
    (listFiles trim fetchFile fileIds k draw clock st).
Proof.
  revert k st. induction fileIds as [|fileId fileIds IH];
    intros k st Hb H; [done|].
  cbn [listFiles] in *. apply IH; [done|]. apply listFile_ok; [|done].
  etrans; [apply listFiles_minted|exact Hb].
Qed.

Lemma listNote_ok details fetchFile st :
  (ls_minted (listNote trim split details fetchFile draw clock st)
   <= bound)%nat ->
  listing_ok draw clock w0 st ->
  listing_ok draw clock w0
    (listNote trim split details fetchFile draw clock st).
Proof.
  unfold listNote. intros Hb H. destruct details as [ids|e]; [|done].
  destruct (truthy ids); [|done]. by apply listFiles_ok.
Qed.

Lemma listNotes_ok noteDetails fetchFile notes n st :
  (ls_minted (listNotes trim split noteDetails fetchFile notes n
                draw clock st) <= bound)%nat ->
  listing_ok draw clock w0 st ->
  listing_ok draw clock w0
    (listNotes trim split noteDetails fetchFile notes n draw clock st).
Proof.
  revert n st. induction notes as [|note notes IH]; intros n st Hb H;
    [done|].
  cbn [listNotes] in *. apply IH; [done|]. apply listNote_ok; [|done].
  etrans; [apply listNotes_minted|exact Hb].
Qed.
End Listing.

(** X18: when the random draws of the request differ from each other, the
    attachment list answers with one token per file it lists:
    [fileCount] is the number of files, each file cost one mint, and the
    token listed with a file is accepted by the file handler for the id
    listed with it until it expires. *)
Theorem X18_listed_files_carry_their_tokens
    trim split contactId results noteDetails fetchFile draw clock w :
  results <> [] ->
  let r := get_contact_files trim split contactId (Normal (Some results))
             noteDetails fetchFile draw clock w in
  exists files,
    r.2 = FilesListed contactId (List.length files) files /\
    List.length (timers r.1)
    = (List.length (timers w) + List.length files)%nat /\
    ((forall j, (j < List.length files)%nat ->
        List.length (draw j) = 32%nat) ->
     (forall j1 j2, (j1 < List.length files)%nat ->
        (j2 < List.length files)%nat -> draw j1 = draw j2 -> j1 = j2) ->
     forall j lf fid now',
       files !! j = Some lf ->
       listed_id lf = JStr fid ->
       now' <= clock j + 15 * 60 * 1000 ->
       get_api_file fid (JStr (listed_viewerToken lf)) now' r.1
       = Normal (r.1, FetchFile fid)).
Proof.
  intros Hne r. subst r. unfold get_contact_files.
  rewrite bool_decide_eq_false_2 by (by destruct results).
  set (st := listNotes trim split noteDetails fetchFile results 0 draw
               clock (mkListing w 0 [])).
  assert (Hinit : listing_counts w (mkListing w 0 [])).
  { split; [done|]. cbn. lia. }
  destruct (listNotes_counts trim split draw clock w noteDetails fetchFile
              results 0 _ Hinit) as [Hminted Htimers].
  fold st in Hminted, Htimers.
  cbn [fst snd]. exists (ls_files st).
  split; [done|]. split; [done|].
  intros Hlen Hinj j lf fid now' Hj Hfid Hnow.
  pose proof (listNotes_ok trim split draw clock w
                (List.length (ls_files st)) Hinj noteDetails fetchFile
                results 0 (mkListing w 0 [])) as Hok.
  fold st in Hok. destruct Hok as [_ Hfiles]; [lia|by split|].
  destruct (Hfiles j lf Hj) as [Htok Hget]. rewrite Htok.
  assert (Hj' : (j < List.length (ls_files st))%nat)
    by (apply lookup_lt_is_Some; by eexists).
  assert (Hv : validateViewerToken (JStr (toHex (draw j))) now' (ls_world st)
               = Normal (ls_world st,
                   Some (mkTokenData (listed_id lf) (listed_name lf)
                           (clock j + 900000) false))).
  { apply validate_live; [exact Hget|cbn; lia]. }
  rewrite (get_api_file_after _ _ _ _ _ (toHex_truthy _ (Hlen j Hj')) Hv).
  unfold token_rejected. cbn. rewrite Hfid. by rewrite strict_ne_same.
Qed.

Lemma listFiles_all_fail trim fetchFile fileIds k draw clock st :
  (forall k id, exists e, fetchFile k id = Throw e) ->
  listFiles trim fetchFile fileIds k draw clock st = st.
Proof.
  intros Hfail. revert k. induction fileIds as [|fileId fileIds IH];
    intros k; [done|].
  cbn [listFiles]. destruct (Hfail k (trim fileId)) as [e ->]. cbn. apply IH.
Qed.

Lemma listNotes_all_fail trim split noteDetails fetchFile notes n draw clock st :
  (forall n note, exists e, noteDetails n note = Throw e) \/
  (forall n k id, exists e, fetchFile n k id = Throw e) ->
  listNotes trim split noteDetails fetchFile notes n draw clock st = st.
Proof.
  intros Hfail. revert n. induction notes as [|note notes IH]; intros n;
    [done|].
  cbn [listNotes].
  assert (Hnote : listNote trim split (noteDetails n note) (fetchFile n)
                    draw clock st = st).
  { unfold listNote. destruct Hfail as [Hfail|Hfail].
    - by destruct (Hfail n note) as [e ->].
    - destruct (noteDetails n note) as [ids|e]; [|done].
      destruct (truthy ids); [|done].
      apply listFiles_all_fail. apply Hfail. }
  rewrite Hnote. apply IH.
Qed.

(** X19: failures below the first HubSpot call are swallowed: when every
    note request fails, or every file request fails, the answer is still
    a success, with no files, and nothing is minted. Only a failure of
    the first call gives a 500, and a contact without notes gives the
    bare empty list; neither changes the state. *)
Theorem X19_listing_swallows_failures
    trim split contactId noteDetails fetchFile draw clock w :
  (forall results,
     results <> [] ->
     (forall n note, exists e, noteDetails n note = Throw e) \/
     (forall n k id, exists e, fetchFile n k id = Throw e) ->
     get_contact_files trim split contactId (Normal (Some results))
       noteDetails fetchFile draw clock w
     = (w, FilesListed contactId 0 [])) /\
  (forall message,
     get_contact_files trim split contactId (Throw message)
       noteDetails fetchFile draw clock w
     = (w, FilesError 500 message)) /\
  (forall notes,
     notes = None \/ notes = Some [] ->
     get_contact_files trim split contactId (Normal notes)
       noteDetails fetchFile draw clock w
     = (w, FilesNone)).
Proof.
  split; [|split].
  - intros results Hne Hfail. unfold get_contact_files.
    rewrite bool_decide_eq_false_2 by (by destruct results).
    by rewrite listNotes_all_fail.
  - done.
  - by intros notes [->| ->].
Qed.

(** ** Worked instances *)

Lemma X1_domain_pattern_accepts_exactly_witness :
  origin_shape "hubspot.com" (chars "https://app.hubspot.com").
Proof.
  apply (proj1 (X1_domain_pattern_accepts_exactly "hubspot.com"
                  "https://app.hubspot.com")).
  vm_compute. reflexivity.
Defined.

Lemma X2_lookalike_origin_is_rejected_witness :
  validateHubSpotRequest no_url lookalike_request
  = Reject 401 "Unauthorized".
Proof.
  apply (X2_lookalike_origin_is_rejected no_url lookalike_request
           "hubspot.com" "https://evi" "l"%char "hubspot.com").
  - left. reflexivity.
  - discriminate.
  - discriminate.
  - reflexivity.
  - reflexivity.
  - reflexivity.
  - vm_compute. reflexivity.
Defined.

Lemma X3_user_agent_opens_the_gate_witness :
  validateHubSpotRequest no_url spoofed_agent_request = Next.
Proof.
  apply (X3_user_agent_opens_the_gate no_url spoofed_agent_request
           "HubSpot Connect 2.0" [] (chars "HubSpot")
           (chars " Connect 2.0")); reflexivity.
Defined.

Lemma X4_cors_admits_any_extension_witness :
  corsOrigin (JStr "localhost") = true /\
  corsOrigin (JStr ("https://evil.example/?" ++ "localhost" ++ "")) = true.
Proof.
  assert (H : corsOrigin (JStr "localhost") = true) by reflexivity.
  split; [exact H|].
  apply (X4_cors_admits_any_extension "localhost"
           "https://evil.example/?" ""); [discriminate|exact H].
Defined.

Lemma X5_cors_admits_pattern_origins_witness :
  corsOrigin (JStr "https://app.hubspot.com") = true.
Proof.
  apply (X5_cors_admits_pattern_origins "hubspot.com"
           "https://app.hubspot.com").
  - left. reflexivity.
  - reflexivity.
  - vm_compute. reflexivity.
Defined.

Lemma X6_headerless_request_mints_witness :
  exists w',
    route_generate_viewer_token no_url bare_request
      (Some (mkMintBody (JStr "42") JUndefined)) example_rnd 0 initial
    = (w', ReplyToken (toHex example_rnd) 900) /\
    get_api_file "42" (JStr (toHex example_rnd)) 5 w'
    = Normal (w', FetchFile "42").
Proof.
  apply (X6_headerless_request_mints no_url bare_request "42" JUndefined
           example_rnd 0 5 initial).
  - reflexivity.
  - reflexivity.
  - discriminate.
  - reflexivity.
  - lia.
Defined.

Lemma example_file_request :
  get_api_file "42" example_token 5 example_world
  = Normal (example_world, FetchFile "42").
Proof.
  rewrite (get_api_file_after "42" example_token 5 example_world
             (Some example_record)).
  - reflexivity.
  - reflexivity.
  - apply validate_live; [exact example_world_lookup|cbn; lia].
Qed.

Lemma X7_read_gate_sound_witness :
  example_world = example_world /\ truthy example_token = true /\
  exists td, viewerTokens example_world !! example_token = Some td /\
             fileId td = JStr "42" /\ 5 <= expiresAt td.
Proof.
  apply (X7_read_gate_sound "42" JUndefined example_token 5 example_world
           example_world (FetchFile "42")).
  - left. exact example_file_request.
  - discriminate.
Defined.

Lemma example_upload_request :
  post_hubspot_upload example_upload 5 example_world
  = (example_world, ReplaceFile (JStr "99") (JStr "edited.pdf")).
Proof.
  unfold post_hubspot_upload, upload_try.
  change (upload_token example_upload) with example_token.
  rewrite (validate_live example_token 5 example_world example_record
             example_world_lookup) by (cbn; lia).
  reflexivity.
Qed.

Lemma X8_upload_gate_sound_witness :
  exists td, viewerTokens example_world !! upload_token example_upload
             = Some td /\ 5 <= expiresAt td.
Proof.
  destruct (X8_upload_gate_sound example_upload 5 example_world
              example_world (ReplaceFile (JStr "99") (JStr "edited.pdf")))
    as (_ & _ & H & _).
  - exact example_upload_request.
  - discriminate.
  - exact H.
Defined.


Lemma X10_expired_token_is_dead_witness :
  get_api_file "42" example_token 900001 example_world
  = Normal (timerCallback example_token example_world,
            ReplyError 401 "Invalid or expired token").
Proof.
  apply (X10_expired_token_is_dead "42" JUndefined example_upload
           example_token 900001 example_world example_record).
  - reflexivity.
  - reflexivity.
  - exact example_world_lookup.
  - cbn. lia.
Defined.

Lemma example_world_reachable : reachable example_world.
Proof.
  apply rtc_once.
  apply (step_mint (JStr "42") (JStr "a.pdf") example_rnd 0 initial).
  reflexivity.
Qed.

Lemma X11_every_record_has_its_timer_witness :
  exists t, t ∈ timers example_world /\ timer_token t = example_token /\
            timer_delay t = 15 * 60 * 1000.
Proof.
  apply (X11_every_record_has_its_timer example_world
           example_world_reachable example_token example_record
           example_world_lookup).
Defined.

Lemma X12_token_is_64_hex_digits_witness :
  String.length (toHex example_rnd) = 64%nat /\
  Forall (fun c => c ∈ hexAlphabet) (chars (toHex example_rnd)) /\
  fromHex 32 (toHex example_rnd) = Some example_rnd.
Proof.
  apply (X12_token_is_64_hex_digits (JStr "42") (JStr "a.pdf") example_rnd
           0 initial).
  reflexivity.
Defined.

Lemma X13_mint_adds_one_record_for_900s_witness :
  exists w' td,
    post_generate_viewer_token (Some (mkMintBody (JStr "42") JUndefined))
      example_rnd 0 initial
    = (w', ReplyToken (toHex example_rnd) 900) /\
    viewerTokens w' !! JStr (toHex example_rnd) = Some td /\
    fileId td = JStr "42" /\
    expiresAt td - 0 = 900 * 1000 /\
    timers w'
    = (timers initial ++
       [mkTimer (900 * 1000) (JStr (toHex example_rnd))])%list /\
    forall k, k <> JStr (toHex example_rnd) ->
      viewerTokens w' !! k = viewerTokens initial !! k.
Proof.
  apply (X13_mint_adds_one_record_for_900s (JStr "42") JUndefined
           example_rnd 0 initial).
  reflexivity.
Defined.


Lemma X15_card_links_open_their_files_witness :
  get_viewer "44" JUndefined (JStr (toHex (example_draw 1))) 5
    example_card.1
  = Normal (example_card.1,
            RenderViewer "44" (JStr "document")
              (JStr (toHex (example_draw 1)))).
Proof.
  destruct (card_actions example_card.2) as [actions|] eqn:Hacts;
    [|discriminate Hacts].
  apply (X15_card_links_open_their_files no_int plain_encode (JStr "7")
           JUndefined (Some example_files) example_draw example_clock
           initial eq_refl) with
    (actions := actions)
    (file := mkHubSpotFile (JStr "44") (JStr "b.PDF") (JStr "PDF")).
  - intros j _. reflexivity.
  - intros j1 j2 H1 H2 Hne.
    change (j1 < 2)%nat in H1. change (j2 < 2)%nat in H2.
    destruct j1 as [|[|j1]]; destruct j2 as [|[|j2]];
      try lia; discriminate.
  - exact Hacts.
  - reflexivity.
  - reflexivity.
  - unfold example_clock. lia.
Defined.

Lemma X16_card_ignores_the_contact_witness :
  card_actions
    (post_crm_card no_int plain_encode
       (Some (mkCardBody (JStr "7") JUndefined))
       (Normal (Some example_files)) example_draw example_clock initial).2
  = card_actions
      (post_crm_card no_int plain_encode
         (Some (mkCardBody JNull (JStr "8")))
         (Normal (Some example_files)) example_draw example_clock initial).2.
Proof.
  apply (X16_card_ignores_the_contact no_int plain_encode (JStr "7")
           JUndefined JNull (JStr "8") (Normal (Some example_files))
           example_draw example_clock initial); reflexivity.
Defined.

Lemma X17_content_type_of_extension_witness :
  mimeTypeOf (extensionOf JUndefined) = MimeString "application/octet-stream" /\
  mimeTypeOf (extensionOf (JStr "PDF"))
  = mimeTypeOf (extensionOf (JStr (toLowerCase "PDF"))).
Proof.
  split.
  - apply (proj1 (proj2 (X17_content_type_of_extension JUndefined))).
    reflexivity.
  - apply (proj2 (proj2 (X17_content_type_of_extension (JStr "PDF")))).
    reflexivity.
Defined.

Lemma X18_listed_files_carry_their_tokens_witness :
  exists files,
    example_listing.2 = FilesListed "7" (List.length files) files /\
    List.length (timers example_listing.1)
    = (List.length (timers initial) + List.length files)%nat.
Proof.
  destruct (X18_listed_files_carry_their_tokens plain_trim one_part "7"
              [JStr "501"] example_note_details example_fetch example_draw
              example_clock initial) as (files & H1 & H2 & _).
  - discriminate.
  - exists files. split; [exact H1|exact H2].
Defined.

Lemma X19_listing_swallows_failures_witness :
  get_contact_files plain_trim one_part "7" (Normal (Some [JStr "501"]))
    example_note_details failing_fetch example_draw example_clock initial
  = (initial, FilesListed "7" 0 []).
Proof.
  apply (proj1 (X19_listing_swallows_failures plain_trim one_part "7"
                  example_note_details failing_fetch example_draw
                  example_clock initial)).
  - discriminate.
  - right. intros n k id. by eexists.
Defined.
